(** * Colligo: the walk-and-serialize routine of [src/cmd/main.go]

    A shallow embedding of [main], its walk callback, [isHidden] and
    [writeFileContent], together with the parts of Go's standard library
    they call ([path/filepath], [bufio], [io], [log/slog]), on a Unix
    platform (separator [/]).

    Go strings are byte sequences; so are Rocq's [string]s (one [ascii]
    per byte), and both paths and file contents are modelled by them. *)

From Stdlib Require Import String Ascii List Bool Arith Lia ZArith.
Import ListNotations.
Open Scope string_scope.

Set Implicit Arguments.

(** ** Errors and results *)

(** Go's [error] values as the walk sees them: the two sentinels of
    [path/filepath], and the errors of the operating system and the
    library, identified by their text ([err.Error()], what [%v]
    prints). The latter are never a sentinel, so where only they can
    occur the model carries the text alone. *)
Inductive error : Type :=
| SkipDir
| SkipAll
| Errno (text : string).

Definition error_eqb (a b : error) : bool :=
  match a, b with
  | SkipDir, SkipDir => true
  | SkipAll, SkipAll => true
  | Errno s, Errno t => String.eqb s t
  | _, _ => false
  end.

Definition errText (e : error) : string :=
  match e with
  | SkipDir => "skip this directory"
  | SkipAll => "skip everything and stop the walk"
  | Errno s => s
  end.

Inductive result (A : Type) : Type :=
| Ok (a : A)
| Err (text : string).
Arguments Ok {A} a.
Arguments Err {A} text.

(** The line feed, ["\n"] in the Go source. *)
Definition LF : string := String "010"%char EmptyString.

(** ** [path/filepath] on Unix *)

Module filepath.

(** [strings.Split(s, "/")]. *)
Fixpoint split (s : string) : list string :=
  match s with
  | EmptyString => [EmptyString]
  | String c s' =>
      if Ascii.eqb c "/"%char then EmptyString :: split s'
      else match split s' with
           | h :: t => String c h :: t
           | [] => [String c EmptyString]
           end
  end.

Definition IsAbs (p : string) : bool := String.prefix "/" p.

(** The element-wise reading of [Clean]: empty and [.] elements go, a
    [..] removes the element before it, a [..] at the root goes, and a
    leading [..] of a relative path stays. [stack] is the output so
    far, last element first. *)
Fixpoint cleanElems (rooted : bool) (stack elems : list string) : list string :=
  match elems with
  | [] => rev stack
  | e :: rest =>
      if String.eqb e "" || String.eqb e "." then cleanElems rooted stack rest
      else if String.eqb e ".." then
        match stack with
        | top :: below =>
            if String.eqb top ".." then cleanElems rooted (e :: stack) rest
            else cleanElems rooted below rest
        | [] =>
            if rooted then cleanElems rooted [] rest
            else cleanElems rooted [e] rest
        end
      else cleanElems rooted (e :: stack) rest
  end.

Definition Clean (p : string) : string :=
  let rooted := IsAbs p in
  let out := String.concat "/" (cleanElems rooted [] (split p)) in
  if rooted then "/" ++ out
  else if String.eqb out "" then "." else out.

(** [Join] of two elements: the elements from the first non-empty one
    on are glued with the separator and cleaned. *)
Definition Join (a b : string) : string :=
  if String.eqb a "" then (if String.eqb b "" then "" else Clean b)
  else Clean (a ++ "/" ++ b).

(** The elements of a cleaned path. *)
Definition elems (p : string) : list string :=
  filter (fun e => negb (String.eqb e "")) (split p).

Fixpoint dropCommon (bs ts : list string) : list string * list string :=
  match bs, ts with
  | b :: bs', t :: ts' =>
      if String.eqb b t then dropCommon bs' ts' else (bs, ts)
  | _, _ => (bs, ts)
  end.

(** [Rel]: both paths are cleaned, equal paths give [.], a rooted and
    an unrooted path cannot be related, matching leading elements are
    dropped, and every element left of the base costs one [..]. The
    program calls it with an absolute base and an absolute target. *)
Definition Rel (basepath targpath : string) : result string :=
  let base := Clean basepath in
  let targ := Clean targpath in
  let cant := Err ("Rel: can't make " ++ targpath ++ " relative to " ++ basepath) in
  if String.eqb targ base then Ok "."
  else
    let base := if String.eqb base "." then "" else base in
    if negb (Bool.eqb (IsAbs base) (IsAbs targ)) then cant
    else
      let '(bs, ts) := dropCommon (elems base) (elems targ) in
      match bs with
      | [] => Ok (String.concat "/" ts)
      | b :: _ =>
          if String.eqb b ".." then cant
          else Ok (String.concat "/" (map (fun _ => "..") bs ++ ts))
      end.

End filepath.

(** ** [log/slog] *)

Inductive Level : Type := LevelDebug | LevelInfo | LevelWarn | LevelError.

Definition levelNum (l : Level) : Z :=
  match l with
  | LevelDebug => -4
  | LevelInfo => 0
  | LevelWarn => 4
  | LevelError => 8
  end.

Record LogRecord : Type := mkRecord {
  lvl : Level;
  msg : string;
  attrs : list (string * string)
}.

(** A logger is its handler's minimum level and what it has printed on
    the diagnostic stream, oldest record first. *)
Record Logger : Type := mkLogger {
  minLevel : Level;
  printed : list LogRecord
}.

Definition emit (lg : Logger) (r : LogRecord) : Logger :=
  if (levelNum (minLevel lg) <=? levelNum (lvl r))%Z
  then mkLogger (minLevel lg) (printed lg ++ [r])
  else lg.

Definition Info (lg : Logger) (m : string) (kv : list (string * string)) : Logger :=
  emit lg (mkRecord LevelInfo m kv).

Definition Error (lg : Logger) (m : string) (kv : list (string * string)) : Logger :=
  emit lg (mkRecord LevelError m kv).

(** ASCII lower-casing; on the four level names it agrees with
    [strings.ToLower]. *)
Definition lowerAscii (c : ascii) : ascii :=
  let n := nat_of_ascii c in
  if ((65 <=? n) && (n <=? 90))%nat then ascii_of_nat (n + 32) else c.

Fixpoint ToLower (s : string) : string :=
  match s with
  | EmptyString => EmptyString
  | String c s' => String (lowerAscii c) (ToLower s')
  end.

Definition parseLevel (logLevel : string) : Level :=
  let l := ToLower logLevel in
  if String.eqb l "debug" then LevelDebug
  else if String.eqb l "info" then LevelInfo
  else if String.eqb l "warn" then LevelWarn
  else if String.eqb l "error" then LevelError
  else LevelInfo.

(** ** [bufio.Writer] over the output file

    The writer is modelled by the byte stream it has accepted, in
    order, and its sticky error. The file below it takes [room] more
    bytes ([None]: any number); the write that exceeds it keeps what
    fits and fails, and every later write and the final flush report
    the same error. When the flush succeeds the accepted stream is the
    content of the artifact.

    The buffer of 4096 bytes is left out. With a file that takes every
    byte the model and the writer agree. With a file that does not,
    the real writer may accept a write into its buffer and report the
    failure at a later write or at the final flush, where the model
    reports it at the write that exceeds the room: the model then
    agrees with the program on whether the final flush fails, so on
    the exit code, and not on which record is logged first. The
    statements below are about writes that are accepted, about a
    writer that has already failed, or about a file that takes every
    byte; one counterexample uses the exit codes of a file with a
    limit. *)

Record Writer : Type := mkWriter {
  sent : string;
  room : option nat;
  werr : option string
}.

Definition NewWriter (capacity : option nat) : Writer :=
  mkWriter "" capacity None.

Definition ErrNoSpace : string := "no space left on device".

Definition WriteString (w : Writer) (s : string) : Writer * option string :=
  match werr w with
  | Some e => (w, Some e)
  | None =>
      match room w with
      | None => (mkWriter (sent w ++ s) None None, None)
      | Some n =>
          if (String.length s <=? n)%nat
          then (mkWriter (sent w ++ s) (Some (n - String.length s)) None, None)
          else (mkWriter (sent w ++ substring 0 n s) (Some 0) (Some ErrNoSpace),
                Some ErrNoSpace)
      end
  end.

Definition Flush (w : Writer) : option string := werr w.

(** ** The operating system *)

(** What [os.Open] followed by reading to the end gives, when both
    return: the open fails, or the file yields [content] and then the
    end of file ([rerr = None]) or a read error; [cerr] is what
    [Close] returns. An open or a read that never returns (a FIFO
    without a writer) and a file that grows while it is read have no
    value here: the statements below are about runs in which every
    open and every read returns. *)
Inductive OpenResult : Type :=
| OpenFail (e : string)
| Opened (content : string) (rerr : option string) (cerr : option string).

(** [io.Copy(writer, file)]: the bytes read go to the writer; a write
    error stops the copy, a read error ends it. The model leaves the
    writer healthy after a read error; [bufio.Writer.ReadFrom] keeps
    the error as the writer's own when the buffer was flushed during
    the copy. No statement below is about what the writer accepts
    after a read error. *)
Definition ioCopy (w : Writer) (content : string) (rerr : option string)
  : Writer * option string :=
  let '(w1, r) := WriteString w content in
  match r with
  | Some e => (w1, Some e)
  | None => (w1, rerr)
  end.

Record DirEntry : Type := mkDirEntry {
  Name : string;
  IsDir : bool
}.

(** A directory tree as [os.Lstat] and [os.ReadDir] show it: the entry,
    the entries [ReadDir] lists in it (sorted by name; none for a
    file or a symbolic link, which [WalkDir] does not follow) and the
    error [ReadDir] returns with them. *)
#[local] Unset Elimination Schemes.
Inductive Tree : Type :=
| Node (d : DirEntry) (dirs : list Tree) (rderr : option string).
#[local] Set Elimination Schemes.

Definition entry (t : Tree) : DirEntry :=
  match t with Node d _ _ => d end.

Record Env : Type := mkEnv {
  goos : string;                               (* runtime.GOOS *)
  now : string;                                (* time.Now().Format("20060102T150405") *)
  Getwd : result string;                       (* os.Getwd *)
  Create : string -> option string;            (* os.Create, the error *)
  capacity : option nat;                       (* bytes the created file takes *)
  Lstat : string -> result Tree;               (* os.Lstat and the tree below *)
  EvalSymlinks : string -> result string;      (* filepath.EvalSymlinks *)
  Open : string -> OpenResult;                 (* os.Open and the reads *)
  CloseOut : option string                     (* the deferred outFile.Close() *)
}.

(** [filepath.Abs]. *)
Definition Abs (env : Env) (p : string) : result string :=
  if filepath.IsAbs p then Ok (filepath.Clean p)
  else match Getwd env with
       | Ok wd => Ok (filepath.Join wd p)
       | Err e => Err e
       end.

(** [filepath.WalkDir] (Go 1.22): the callback is called on the entry
    before its directory is read; a directory for which it returns
    [SkipDir] is not read; a [ReadDir] error is reported by a second
    call on the directory; [SkipDir] from an entry that is not a
    directory ends the listing of its parent; every other error ends
    the walk. The callback threads a state of type [S]. *)
Section WalkDir.

Variable St : Type.

Definition WalkDirFunc : Type :=
  string -> option DirEntry -> option error -> St -> St * option error.

Variable fn : WalkDirFunc.

Definition skipped (d : DirEntry) (e : error) : option error :=
  if error_eqb e SkipDir && IsDir d then None else Some e.

Fixpoint walkDir (path : string) (t : Tree) (st : St) {struct t} : St * option error :=
  match t with
  | Node d dirs rderr =>
      let walkEach :=
        fix walkEach (l : list Tree) (st : St) {struct l} : St * option error :=
          match l with
          | [] => (st, None)
          | t1 :: rest =>
              let '(st1, err) := walkDir (filepath.Join path (Name (entry t1))) t1 st in
              match err with
              | None => walkEach rest st1
              | Some e => if error_eqb e SkipDir then (st1, None) else (st1, Some e)
              end
          end in
      let '(st1, err) := fn path (Some d) None st in
      match err with
      | Some e => (st1, skipped d e)
      | None =>
          if negb (IsDir d) then (st1, None)
          else
            match rderr with
            | Some re =>
                let '(st2, err2) := fn path (Some d) (Some (Errno re)) st1 in
                match err2 with
                | Some e => (st2, skipped d e)
                | None => walkEach dirs st2
                end
            | None => walkEach dirs st1
            end
      end
  end.

(** The loop over a directory's entries, [for _, d1 := range dirs]. *)
Fixpoint walkEntries (path : string) (l : list Tree) (st : St) : St * option error :=
  match l with
  | [] => (st, None)
  | t1 :: rest =>
      let '(st1, err) := walkDir (filepath.Join path (Name (entry t1))) t1 st in
      match err with
      | None => walkEntries path rest st1
      | Some e => if error_eqb e SkipDir then (st1, None) else (st1, Some e)
      end
  end.

Definition WalkDir (lstat : string -> result Tree) (root : string) (st : St)
  : St * option error :=
  let '(st1, err) :=
    match lstat root with
    | Err e => fn root None (Some (Errno e)) st
    | Ok t => walkDir root t st
    end in
  match err with
  | Some e => if error_eqb e SkipDir || error_eqb e SkipAll then (st1, None) else (st1, Some e)
  | None => (st1, None)
  end.

End WalkDir.

(** ** The program *)

Definition isHidden (name : string) : bool := String.prefix "." name.

(** What the callback and the serializer share: the buffered writer and
    the logger. *)
Record State : Type := mkState {
  writer : Writer;
  logger : Logger
}.

Definition beginMarker (relativePath : string) : string :=
  LF ++ LF ++ "# BEGIN FILE: " ++ relativePath ++ LF ++ LF.

Definition endMarker (relativePath : string) : string :=
  LF ++ LF ++ "# END FILE: " ++ relativePath ++ LF ++ LF.

Definition errorLine (relativePath : string) (e : string) : string :=
  "# Error reading " ++ relativePath ++ ": " ++ e ++ LF.

(** The deferred [file.Close()]. *)
Definition closeFile (filePath : string) (cerr : option string) (lg : Logger) : Logger :=
  match cerr with
  | Some e => Error lg "Error closing input file" [("file", filePath); ("error", e)]
  | None => lg
  end.

Definition writeFileContent (env : Env) (st : State) (filePath relativePath : string)
  : State * option string :=
  let lg := logger st in
  let '(w1, err) := WriteString (writer st) (beginMarker relativePath) in
  match err with
  | Some e =>
      (mkState w1 (Error lg "Error writing header"
                     [("file", relativePath); ("error", e)]), Some e)
  | None =>
      match Open env filePath with
      | OpenFail e =>
          let lg1 := Error lg "Error opening file" [("file", filePath); ("error", e)] in
          let '(w2, writeErr) := WriteString w1 (errorLine relativePath e) in
          match writeErr with
          | Some we =>
              (mkState w2 (Error lg1 "Error writing error message to output"
                             [("file", relativePath); ("error", we)]), Some we)
          | None => (mkState w2 lg1, Some e)
          end
      | Opened content rerr cerr =>
          let '(w2, err) := ioCopy w1 content rerr in
          match err with
          | Some e =>
              let lg1 := Error lg "Error copying file content"
                           [("file", filePath); ("error", e)] in
              (mkState w2 (closeFile filePath cerr lg1), Some e)
          | None =>
              let '(w3, err) := WriteString w2 (endMarker relativePath) in
              let lg1 :=
                match err with
                | Some e => Error lg "Error writing footer"
                              [("file", relativePath); ("error", e)]
                | None => lg
                end in
              (mkState w3 (closeFile filePath cerr lg1), err)
          end
      end
  end.

Definition logged (st : State) (m : string) (kv : list (string * string)) : State :=
  mkState (writer st) (Error (logger st) m kv).

(** Go panics when the callback touches a nil [DirEntry]; [WalkDir]
    passes one only together with an error, which the callback returns
    first. *)
Definition nilDeref : error := Errno "invalid memory address or nil pointer dereference".

(** The function literal passed to [filepath.WalkDir] in [main]. *)
Definition walkFn (env : Env) (repoPath outputFile : string) : WalkDirFunc State :=
  fun path d err st =>
  match err with
  | Some e =>
      (logged st "Error accessing path" [("path", path); ("error", errText e)], Some e)
  | None =>
  match filepath.Rel repoPath path with
  | Err e =>
      (logged st "Error getting relative path"
         [("base", repoPath); ("target", path); ("error", e)], Some (Errno e))
  | Ok relativePath =>
  match EvalSymlinks env path with
  | Err e =>
      (logged st "Failed to evaluate symbolic link" [("path", path); ("error", e)],
       Some (Errno e))
  | Ok evaluatedPath =>
  match Abs env (filepath.Clean evaluatedPath) with
  | Err e =>
      (logged st "Failed to normalize path" [("path", path); ("error", e)],
       Some (Errno e))
  | Ok normalizedPath =>
      if String.eqb relativePath outputFile then (st, None)
      else
        match d with
        | None => (st, Some nilDeref)
        | Some d =>
            if IsDir d then
              if isHidden (Name d) && negb (String.eqb (Name d) ".github")
              then (st, Some SkipDir)
              else (st, None)
            else if isHidden (Name d) then (st, None)
            else
              let '(st1, err) := writeFileContent env st normalizedPath relativePath in
              match err with
              | Some e =>
                  (logged st1 "Error processing file"
                     [("file", normalizedPath); ("error", e)], None)
              | None => (st1, None)
              end
        end
  end end end end.

Record Flags : Type := mkFlags {
  repo : string;        (* --repo, "." when absent *)
  output : string;      (* --output, "" when absent *)
  logLevel : string     (* --log-level, "info" when absent *)
}.

(** What a run leaves: the exit code, the diagnostic stream and the
    byte stream the writer accepted (the artifact, when the exit code
    is 0). *)
Record Run : Type := mkRun {
  exitCode : Z;
  diagnostics : list LogRecord;
  stream : string
}.

Definition outputName (fl : Flags) (env : Env) : string :=
  if String.eqb (output fl) ""
  then "combined_repo_" ++ goos env ++ "_" ++ now env ++ ".txt"
  else output fl.

Definition main (fl : Flags) (env : Env) : Run :=
  let outputFile := outputName fl env in
  let lg := mkLogger (parseLevel (logLevel fl)) [] in
  let lg := Info lg "Starting Colligo" [("repoPath", repo fl); ("outputFile", outputFile)] in
  match Abs env (filepath.Clean (repo fl)) with
  | Err e =>
      mkRun 1 (printed (Error lg "Failed to normalize repository path"
                          [("repoPath", repo fl); ("error", e)])) ""
  | Ok repoPath =>
  match Create env outputFile with
  | Some e =>
      mkRun 1 (printed (Error lg "Error creating output file" [("error", e)])) ""
  | None =>
      let st := mkState (NewWriter (capacity env)) lg in
      let '(st1, err) := WalkDir (walkFn env repoPath outputFile) (Lstat env) repoPath st in
      match err with
      | Some e =>
          mkRun 1 (printed (Error (logger st1) "Error walking the path"
                              [("repoPath", repoPath); ("error", errText e)]))
                (sent (writer st1))
      | None =>
          match Flush (writer st1) with
          | Some e =>
              mkRun 1 (printed (Error (logger st1) "Error flushing writer" [("error", e)]))
                    (sent (writer st1))
          | None =>
              let lg1 := Info (logger st1) "Successfully combined files"
                           [("outputFile", outputFile)] in
              let lg2 := match CloseOut env with
                         | Some e => Error lg1 "Error closing output file" [("error", e)]
                         | None => lg1
                         end in
              mkRun 0 (printed lg2) (sent (writer st1))
          end
      end
  end end.

(** ** Vocabulary of the statements *)

(** A writer over a file without a limit, with no error so far; it
    never fails. *)
Definition unbounded (w : Writer) : Prop := room w = None /\ werr w = None.

(** The entry at [path] passes the path steps of the callback:
    [relativePath] is its path relative to the root and
    [normalizedPath] its resolved, normalized path. *)
Definition resolves (env : Env) (repoPath path relativePath normalizedPath : string)
  : Prop :=
  filepath.Rel repoPath path = Ok relativePath /\
  exists evaluatedPath,
    EvalSymlinks env path = Ok evaluatedPath /\
    Abs env (filepath.Clean evaluatedPath) = Ok normalizedPath.

(** The paths [WalkDir] forms for the entries of a tree placed at
    [path], visited or not. *)
Fixpoint treePaths (path : string) (t : Tree) {struct t} : list string :=
  match t with
  | Node _ dirs _ =>
      path ::
      (fix below (l : list Tree) : list string :=
         match l with
         | [] => []
         | t1 :: rest =>
             (treePaths (filepath.Join path (Name (entry t1))) t1 ++ below rest)%list
         end) dirs
  end.

Fixpoint listPaths (path : string) (l : list Tree) : list string :=
  match l with
  | [] => []
  | t1 :: rest =>
      (treePaths (filepath.Join path (Name (entry t1))) t1 ++ listPaths path rest)%list
  end.


(** Two walks end alike: in states related by [R] and with the same
    error. *)
Definition sameWalk {S1 S2 : Type} (R : S1 -> S2 -> Prop)
  (r1 : S1 * option error) (r2 : S2 * option error) : Prop :=
  R (fst r1) (fst r2) /\ snd r1 = snd r2.

(** Two callbacks agree at a path: from related states they end alike,
    whatever entry and error they are called with. *)
Definition agreeAt {S1 S2 : Type} (fn1 : WalkDirFunc S1) (fn2 : WalkDirFunc S2)
  (R : S1 -> S2 -> Prop) (p : string) : Prop :=
  forall d e s1 s2, R s1 s2 -> sameWalk R (fn1 p d e s1) (fn2 p d e s2).


(** [env] with other outcomes of [os.Open] and of the reads. *)
Definition withOpen (env : Env) (open : string -> OpenResult) : Env :=
  mkEnv (goos env) (now env) (Getwd env) (Create env) (capacity env)
        (Lstat env) (EvalSymlinks env) open (CloseOut env).

(** The block of one file in the artifact. *)
Definition block (relativePath content : string) : string :=
  beginMarker relativePath ++ content ++ endMarker relativePath.

(** ** Sample trees *)

Definition file (name : string) : Tree := Node (mkDirEntry name false) [] None.

Definition dir (name : string) (l : list Tree) : Tree := Node (mkDirEntry name true) l None.

Fixpoint lookup (l : list (string * string)) (p : string) : option string :=
  match l with
  | [] => None
  | (k, v) :: rest => if String.eqb k p then Some v else lookup rest p
  end.

(** Files with the given contents; every other path cannot be opened. *)
Definition openIn (l : list (string * string)) (p : string) : OpenResult :=
  match lookup l p with
  | Some c => Opened c None None
  | None => OpenFail ("open " ++ p ++ ": no such file or directory")
  end.

(** Paths without symbolic links, except the broken ones listed. *)
Definition linksBut (broken : list string) (p : string) : result string :=
  if existsb (String.eqb p) broken
  then Err ("lstat " ++ p ++ ": no such file or directory")
  else Ok p.

(** A Linux machine with working directory [cwd], the tree [t] at
    [root], an output file that can always be created and a disk
    without a limit. *)
Definition world (cwd root : string) (t : Tree) (broken : list string)
  (contents : list (string * string)) : Env :=
  mkEnv "linux" "20240131T120000" (Ok cwd) (fun _ => None) None
        (fun p => if String.eqb p root then Ok t
                  else Err ("lstat " ++ p ++ ": no such file or directory"))
        (linksBut broken) (openIn contents) None.

(** The scenario of the specification: [a.txt], [.secret] and
    [.github/token.txt]. *)
Definition scenario : Env :=
  world "/home" "/r"
    (dir "r" [dir ".github" [file "token.txt"]; file ".secret"; file "a.txt"])
    []
    [("/r/.github/token.txt", "y"); ("/r/.secret", "x"); ("/r/a.txt", "hello")].

(** A broken symbolic link before a regular file. *)
Definition brokenLink : Env :=
  world "/home" "/r" (dir "r" [file "broken"; file "z.txt"])
    ["/r/broken"] [("/r/z.txt", "hello")].

Definition noLink : Env :=
  world "/home" "/r" (dir "r" [file "z.txt"]) [] [("/r/z.txt", "hello")].

(** A file that is listed but gone when it is opened, before a regular
    file. *)
Definition vanished : Env :=
  world "/home" "/r" (dir "r" [file "gone.txt"; file "z.txt"])
    [] [("/r/z.txt", "hello")].

Definition present : Env :=
  withOpen vanished (openIn [("/r/gone.txt", "here"); ("/r/z.txt", "hello")]).

(** The run starts in [/r/sub] with [--repo /r --output x.txt]: the
    artifact is [/r/sub/x.txt], and [/r/x.txt] is another file. *)
Definition elsewhere : Env :=
  world "/r/sub" "/r" (dir "r" [dir "sub" [file "x.txt"]; file "x.txt"])
    [] [("/r/sub/x.txt", ""); ("/r/x.txt", "data")].

(** [--repo /r --output /r/.out]: the artifact is a hidden file of the
    tree. *)
Definition hiddenOut : Env :=
  world "/r" "/r" (dir "r" [file ".out"; file "a.txt"])
    [] [("/r/.out", ""); ("/r/a.txt", "hello")].

(** [--repo /r --output out.txt] from [/r]: the artifact is [/r/out.txt]. *)
Definition inTree : Env :=
  world "/r" "/r" (dir "r" [file "a.txt"; file "out.txt"])
    [] [("/r/a.txt", "hello"); ("/r/out.txt", "")].

(** An empty file. *)
Definition emptied : Env :=
  world "/home" "/r" (dir "r" [file "empty.txt"]) [] [("/r/empty.txt", "")].


(** A root whose own name is hidden. *)
Definition hiddenRoot : Env :=
  world "/home" "/home/.cfg" (dir ".cfg" [file "a.txt"])
    [] [("/home/.cfg/a.txt", "hello")].

Definition flags (repoPath outputFile : string) : Flags :=
  mkFlags repoPath outputFile "info".

(** The state in which [main] starts the walk. *)
Definition startState (fl : Flags) (env : Env) : State :=
  mkState (NewWriter (capacity env))
    (Info (mkLogger (parseLevel (logLevel fl)) []) "Starting Colligo"
       [("repoPath", repo fl); ("outputFile", outputName fl env)]).

(** A state with an empty sink without a limit and a silent logger. *)
Definition fresh : State := mkState (NewWriter None) (mkLogger LevelInfo []).

(** ** Vocabulary of the further properties *)

(** The entries of a tree placed at [path], each with the path
    [WalkDir] forms for it. *)
Fixpoint treeEntries (path : string) (t : Tree) {struct t} : list (string * DirEntry) :=
  match t with
  | Node d dirs _ =>
      (path, d) ::
      (fix below (l : list Tree) : list (string * DirEntry) :=
         match l with
         | [] => []
         | t1 :: rest =>
             (treeEntries (filepath.Join path (Name (entry t1))) t1 ++ below rest)%list
         end) dirs
  end.

Fixpoint listEntries (path : string) (l : list Tree) : list (string * DirEntry) :=
  match l with
  | [] => []
  | t1 :: rest =>
      (treeEntries (filepath.Join path (Name (entry t1))) t1 ++ listEntries path rest)%list
  end.

(** No directory of the tree fails to be read. *)
Fixpoint readable (t : Tree) : bool :=
  match t with
  | Node _ dirs rderr =>
      match rderr with
      | Some _ => false
      | None =>
          (fix each (l : list Tree) : bool :=
             match l with
             | [] => true
             | t1 :: rest => readable t1 && each rest
             end) dirs
      end
  end.

(** What one call of the serializer leaves in a sink that takes every
    byte: a whole block, or the begin marker and the line of an open
    error, or the begin marker and the bytes read before a read
    error. *)
Inductive Item : Type :=
| Whole (relativePath content : string)
| Unopened (relativePath e : string)
| Cut (relativePath content : string).

Definition relOf (it : Item) : string :=
  match it with
  | Whole r _ => r
  | Unopened r _ => r
  | Cut r _ => r
  end.

Definition render (it : Item) : string :=
  match it with
  | Whole r c => block r c
  | Unopened r e => beginMarker r ++ errorLine r e
  | Cut r c => beginMarker r ++ c
  end.

Fixpoint renderAll (l : list Item) : string :=
  match l with
  | [] => ""
  | it :: rest => render it ++ renderAll rest
  end.

(** The item tells what opening and reading [filePath] gave. *)
Definition fromFile (env : Env) (filePath : string) (it : Item) : Prop :=
  match it with
  | Whole _ c => exists cerr, Open env filePath = Opened c None cerr
  | Unopened _ e => Open env filePath = OpenFail e
  | Cut _ c => exists e cerr, Open env filePath = Opened c (Some e) cerr
  end.

(** The item stands for an entry among [entries]: a file with a name
    that is not hidden, whose relative path is the item's and is not
    the output name. *)
Definition listed (env : Env) (repoPath outputFile : string)
  (entries : list (string * DirEntry)) (it : Item) : Prop :=
  exists p d normalizedPath,
    In (p, d) entries /\ IsDir d = false /\ isHidden (Name d) = false /\
    resolves env repoPath p (relOf it) normalizedPath /\
    relOf it <> outputFile /\
    fromFile env normalizedPath it.

(** [st'] comes after [st]: the sink and the diagnostic stream of [st]
    with more at their ends. *)
Definition extends (st st' : State) : Prop :=
  (exists tail, sent (writer st') = sent (writer st) ++ tail) /\
  (exists more, printed (logger st') = (printed (logger st) ++ more)%list).

(** The sink holds [base] and then items that stand for entries. *)
Definition holds (env : Env) (repoPath outputFile : string)
  (entries : list (string * DirEntry)) (base : string) (st : State) : Prop :=
  unbounded (writer st) /\
  exists items,
    sent (writer st) = base ++ renderAll items /\
    Forall (listed env repoPath outputFile entries) items.

(** The logger still has the minimum level [L], and every record it
    printed is an Info or an Error record at or above [L]. *)
Definition levelled (L : Level) (lg : Logger) : Prop :=
  minLevel lg = L /\
  Forall (fun r => (levelNum L <= levelNum (lvl r))%Z /\
                   (lvl r = LevelInfo \/ lvl r = LevelError))
         (printed lg).

(** The item one call of the serializer leaves for the relative path
    [rel] when opening and reading the file gave [o]. *)
Definition itemOf (rel : string) (o : OpenResult) : Item :=
  match o with
  | OpenFail e => Unopened rel e
  | Opened c None _ => Whole rel c
  | Opened c (Some _) _ => Cut rel c
  end.

(** The item of the entry at [p]: its relative path, and what opening
    and reading its resolved path gives. *)
Definition itemAt (env : Env) (repoPath p : string) : option Item :=
  match filepath.Rel repoPath p with
  | Ok rel =>
      match EvalSymlinks env p with
      | Ok ev =>
          match Abs env (filepath.Clean ev) with
          | Ok np => Some (itemOf rel (Open env np))
          | Err _ => None
          end
      | Err _ => None
      end
  | Err _ => None
  end.

(** The paths of the entries of a tree placed at [path] that a walk
    without an error serializes, in the order of the walk: an entry
    whose relative path is the output name is left out (a directory
    is still entered); a directory with a hidden name other than
    [.github] is left out with all it holds; a file with a hidden
    name is left out; every other file is taken. *)
Fixpoint selected (repoPath outputFile path : string) (t : Tree) {struct t}
  : list string :=
  match t with
  | Node d dirs _ =>
      let below :=
        (fix each (l : list Tree) : list string :=
           match l with
           | [] => []
           | t1 :: rest =>
               (selected repoPath outputFile
                  (filepath.Join path (Name (entry t1))) t1 ++ each rest)%list
           end) dirs in
      match filepath.Rel repoPath path with
      | Err _ => []
      | Ok rel =>
          if String.eqb rel outputFile then (if IsDir d then below else [])
          else if IsDir d then
                 if isHidden (Name d) && negb (String.eqb (Name d) ".github")
                 then [] else below
               else if isHidden (Name d) then [] else [path]
      end
  end.

Fixpoint listSelected (repoPath outputFile path : string) (l : list Tree)
  : list string :=
  match l with
  | [] => []
  | t1 :: rest =>
      (selected repoPath outputFile (filepath.Join path (Name (entry t1))) t1
       ++ listSelected repoPath outputFile path rest)%list
  end.

(** The sink went from [st] to [st'] by the items of the paths [ps],
    in their order. *)
Definition wrote (env : Env) (repoPath : string) (ps : list string) (st st' : State)
  : Prop :=
  unbounded (writer st') /\
  exists items,
    Forall2 (fun p it => itemAt env repoPath p = Some it) ps items /\
    sent (writer st') = sent (writer st) ++ renderAll items.

(** Opening and reading the file returned no read error. *)
Definition readToEnd (o : OpenResult) : Prop :=
  match o with
  | Opened _ (Some _) _ => False
  | _ => True
  end.


(** [--repo /r --output /r/.cache/out.txt]: the artifact is a file
    with a plain name in a hidden directory of the tree. *)
Definition cacheOut : Env :=
  world "/r" "/r" (dir "r" [dir ".cache" [file "out.txt"]; file "a.txt"])
    [] [("/r/.cache/out.txt", ""); ("/r/a.txt", "hello")].

(** The tree of [vanished] and of [present] on a disk with room for
    120 bytes. *)
Definition tight : Env :=
  mkEnv (goos vanished) (now vanished) (Getwd vanished) (Create vanished) (Some 120)
        (Lstat vanished) (EvalSymlinks vanished) (Open vanished) (CloseOut vanished).

Definition tightPresent : Env :=
  withOpen tight (openIn [("/r/gone.txt", "here"); ("/r/z.txt", "hello")]).

(** A file whose read fails after three bytes, before a regular file. *)
Definition truncated : Env :=
  withOpen (world "/home" "/r" (dir "r" [file "big.bin"; file "z.txt"]) [] [])
    (fun p => if String.eqb p "/r/big.bin"
              then Opened "abc" (Some "read /r/big.bin: input/output error") None
              else if String.eqb p "/r/z.txt" then Opened "hello" None None
              else OpenFail ("open " ++ p ++ ": no such file or directory")).

(** A directory that cannot be read, before a regular file. *)
Definition locked : Env :=
  world "/home" "/r"
    (dir "r" [Node (mkDirEntry "private" true) [file "key"]
                (Some "open /r/private: permission denied");
              file "z.txt"])
    [] [("/r/private/key", "k"); ("/r/z.txt", "hello")].

(** A machine on which the root does not exist. *)
Definition missing : Env :=
  world "/home" "/elsewhere" (dir "elsewhere" []) [] [].

(** A sink that has failed. *)
Definition failed : State :=
  mkState (mkWriter "abc" (Some 0) (Some ErrNoSpace)) (mkLogger LevelInfo []).

(** * Properties *)

(** ** The path functions on examples *)

Example Clean_examples :
  filepath.Clean "" = "." /\ filepath.Clean "/" = "/" /\
  filepath.Clean "/a//b/./c/.." = "/a/b" /\ filepath.Clean "a/../.." = ".." /\
  filepath.Clean "/../a" = "/a" /\ filepath.Clean "./out.txt" = "out.txt".
Proof. repeat split; reflexivity. Qed.

Example Rel_examples :
  filepath.Rel "/r" "/r" = Ok "." /\
  filepath.Rel "/r" "/r/sub/x.txt" = Ok "sub/x.txt" /\
  filepath.Rel "/" "/a" = Ok "a" /\
  filepath.Rel "/r/s" "/r/t/u" = Ok "../t/u" /\
  filepath.Rel "." "a/b" = Ok "a/b" /\
  (exists e, filepath.Rel "/r" "a" = Err e).
Proof. repeat split; try reflexivity. eexists; reflexivity. Qed.

(** ** Strings *)

Lemma append_assoc (a b c : string) : (a ++ b) ++ c = a ++ b ++ c.
Proof. induction a as [|x a IH]; simpl; [reflexivity | now rewrite IH]. Qed.

Lemma length_append (a b : string) :
  String.length (a ++ b) = String.length a + String.length b.
Proof. induction a as [|x a IH]; simpl; [reflexivity | now rewrite IH]. Qed.

Lemma prefix_cons (a b : ascii) (s t : string) :
  String.prefix (String a s) (String b t)
  = if ascii_dec a b then String.prefix s t else false.
Proof. reflexivity. Qed.

(** ** The writer *)

Lemma WriteString_accepted w s w' :
  WriteString w s = (w', None) ->
  sent w' = sent w ++ s /\ werr w = None /\ werr w' = None.
Proof.
  unfold WriteString. destruct (werr w) eqn:E; [discriminate | ].
  destruct (room w) as [n|].
  - destruct (String.length s <=? n)%nat; [ | discriminate].
    intros H; injection H as <-. simpl. auto.
  - intros H; injection H as <-. simpl. auto.
Qed.

(** A failed write leaves its error in the writer, where [Flush] finds
    it. *)
Lemma WriteString_failed w s w' e :
  WriteString w s = (w', Some e) -> werr w' = Some e.
Proof.
  unfold WriteString. destruct (werr w) eqn:E.
  - intros H; injection H as <- <-. exact E.
  - destruct (room w) as [n|].
    + destruct (String.length s <=? n)%nat; [discriminate | ].
      intros H; injection H as <- <-. reflexivity.
    + discriminate.
Qed.

Lemma WriteString_unbounded w s :
  unbounded w ->
  WriteString w s = (mkWriter (sent w ++ s) None None, None).
Proof. intros [Hr He]. unfold WriteString. now rewrite He, Hr. Qed.

Lemma ioCopy_done w c rerr w' :
  ioCopy w c rerr = (w', None) ->
  sent w' = sent w ++ c /\ rerr = None /\ werr w' = None.
Proof.
  unfold ioCopy. destruct (WriteString w c) as [w1 [e|]] eqn:E; [discriminate | ].
  intros H; injection H as <- ->.
  apply WriteString_accepted in E. tauto.
Qed.

(** ** [isHidden] *)

(** C7: a name is hidden exactly when its first byte is the dot; so
    [".git"] is hidden, ["file.txt"] is not, and the empty name is
    not. *)
Theorem isHidden_iff_leading_dot :
  (forall n : string, isHidden n = true <-> exists rest, n = String "."%char rest) /\
  isHidden ".git" = true /\
  isHidden "file.txt" = false /\
  isHidden "" = false.
Proof.
  split; [ | repeat split; reflexivity].
  intros n. unfold isHidden. split.
  - destruct n as [|c rest]; [discriminate | ].
    rewrite prefix_cons.
    destruct (ascii_dec "."%char c) as [<-|]; [ | discriminate].
    intros _. now exists rest.
  - intros [rest ->]. rewrite prefix_cons.
    destruct (ascii_dec "."%char "."%char) as [_|N]; [ | now elim N].
    now destruct rest.
Qed.

(** ** [writeFileContent] *)

(** A clean read into a writer without a limit succeeds. *)
Lemma writeFileContent_succeeds env st filePath P C cerr :
  unbounded (writer st) ->
  Open env filePath = Opened C None cerr ->
  snd (writeFileContent env st filePath P) = None.
Proof.
  intros Hu Ho. unfold writeFileContent.
  rewrite (WriteString_unbounded _ Hu), Ho. unfold ioCopy.
  rewrite WriteString_unbounded by (split; reflexivity).
  rewrite WriteString_unbounded by (split; reflexivity).
  reflexivity.
Qed.

(** C2: when the file at [filePath] yields content [C] (empty or not),
    a call that returns no error has appended to the sink exactly the
    begin marker, [C] unchanged and the end marker, that is
    [len(beginMarker) + len(C) + len(endMarker)] bytes; and into a
    healthy sink without a limit such a call does return no error. *)
Theorem writeFileContent_appends_block env st filePath P C rerr cerr :
  Open env filePath = Opened C rerr cerr ->
  (forall st',
      writeFileContent env st filePath P = (st', None) ->
      sent (writer st') =
        sent (writer st)
        ++ LF ++ LF ++ "# BEGIN FILE: " ++ P ++ LF ++ LF
        ++ C
        ++ LF ++ LF ++ "# END FILE: " ++ P ++ LF ++ LF
      /\ String.length (sent (writer st')) =
           String.length (sent (writer st))
           + (String.length (beginMarker P) + String.length C
              + String.length (endMarker P)))
  /\ (unbounded (writer st) -> rerr = None ->
      snd (writeFileContent env st filePath P) = None).
Proof.
  intros Ho. split.
  - intros st'. unfold writeFileContent. rewrite Ho.
    destruct (WriteString (writer st) (beginMarker P)) as [w1 [e|]] eqn:E1;
      [discriminate | ].
    destruct (ioCopy w1 C rerr) as [w2 [e|]] eqn:E2; [discriminate | ].
    destruct (WriteString w2 (endMarker P)) as [w3 [e|]] eqn:E3; [discriminate | ].
    intros H; injection H as <-. cbn [writer sent].
    apply WriteString_accepted in E1, E3. apply ioCopy_done in E2.
    destruct E1 as [E1 _], E2 as [E2 _], E3 as [E3 _].
    assert (Hs : sent w3 = sent (writer st) ++ beginMarker P ++ C ++ endMarker P)
      by (rewrite E3, E2, E1, !append_assoc; reflexivity).
    split.
    + rewrite Hs. unfold beginMarker, endMarker.
      rewrite !append_assoc. reflexivity.
    + rewrite Hs, !length_append. lia.
  - intros Hu ->. now apply writeFileContent_succeeds with (C := C) (cerr := cerr).
Qed.

(** ** The specification's scenario *)

Example scenario_artifact :
  main (flags "/r" "/tmp/out.txt") scenario
  = mkRun 0
      [mkRecord LevelInfo "Starting Colligo"
         [("repoPath", "/r"); ("outputFile", "/tmp/out.txt")];
       mkRecord LevelInfo "Successfully combined files"
         [("outputFile", "/tmp/out.txt")]]
      (block ".github/token.txt" "y" ++ block "a.txt" "hello").
Proof. vm_compute. reflexivity. Qed.

(** ** The walk driver *)

(** Induction on trees: a property of every listed entry gives it for
    the directory. *)
Lemma Tree_ind (P : Tree -> Prop) :
  (forall d dirs rderr, (forall t, In t dirs -> P t) -> P (Node d dirs rderr)) ->
  forall t, P t.
Proof.
  intros step. fix IH 1. intros [d dirs rderr]. apply step.
  induction dirs as [|t1 rest IHrest]; intros t Hin.
  - destruct Hin.
  - destruct Hin as [<- | Hin]; [apply IH | now apply IHrest].
Qed.

Section WalkFacts.

Variable St : Type.
Variable fn : WalkDirFunc St.

(** [walkDir] written with the loop [walkEntries]. *)
Lemma walkDir_unfold path d dirs rderr st :
  walkDir fn path (Node d dirs rderr) st =
  let '(st1, err) := fn path (Some d) None st in
  match err with
  | Some e => (st1, skipped d e)
  | None =>
      if negb (IsDir d) then (st1, None)
      else
        match rderr with
        | Some re =>
            let '(st2, err2) := fn path (Some d) (Some (Errno re)) st1 in
            match err2 with
            | Some e => (st2, skipped d e)
            | None => walkEntries fn path dirs st2
            end
        | None => walkEntries fn path dirs st1
        end
  end.
Proof.
  assert (loop : forall l s,
             (fix walkEach (l : list Tree) (st : St) {struct l} : St * option error :=
                match l with
                | [] => (st, None)
                | t1 :: rest =>
                    let '(st1, err) :=
                      walkDir fn (filepath.Join path (Name (entry t1))) t1 st in
                    match err with
                    | None => walkEach rest st1
                    | Some e =>
                        if error_eqb e SkipDir then (st1, None) else (st1, Some e)
                    end
                end) l s = walkEntries fn path l s).
  { induction l as [|t1 rest IHl]; intros s; [reflexivity | ].
    cbn [walkEntries].
    destruct (walkDir fn (filepath.Join path (Name (entry t1))) t1 s) as [s1 [e|]];
      [reflexivity | apply IHl]. }
  cbn [walkDir]. destruct (fn path (Some d) None st) as [st1 [e|]]; [reflexivity | ].
  destruct (negb (IsDir d)); [reflexivity | ].
  destruct rderr as [re|]; [ | apply loop].
  destruct (fn path (Some d) (Some (Errno re)) st1) as [st2 [e|]];
    [reflexivity | apply loop].
Qed.

(** An entry that is not a directory: one call, and its error is the
    walk's. *)
Lemma walkDir_file path d dirs rderr st :
  IsDir d = false ->
  walkDir fn path (Node d dirs rderr) st = fn path (Some d) None st.
Proof.
  intros Hd. rewrite walkDir_unfold.
  destruct (fn path (Some d) None st) as [st1 [e|]].
  - unfold skipped. rewrite Hd, andb_false_r. reflexivity.
  - rewrite Hd. reflexivity.
Qed.

End WalkFacts.

Lemma treePaths_unfold path d dirs rderr :
  treePaths path (Node d dirs rderr) = path :: listPaths path dirs.
Proof.
  cbn [treePaths]. f_equal.
  induction dirs as [|t1 rest IHl]; [reflexivity | ].
  cbn [listPaths]. now rewrite IHl.
Qed.

(** Two callbacks that agree, up to a relation [R] on their states, on
    every path of the tree make the same walk. *)
Section WalkRel.

Variables S1 S2 : Type.
Variable fn1 : WalkDirFunc S1.
Variable fn2 : WalkDirFunc S2.
Variable R : S1 -> S2 -> Prop.

#[local] Abbreviation same := (sameWalk R).
#[local] Abbreviation agree := (agreeAt fn1 fn2 R).

Lemma walkDir_rel t :
  forall path s1 s2,
    (forall p, In p (treePaths path t) -> agree p) ->
    R s1 s2 ->
    same (walkDir fn1 path t s1) (walkDir fn2 path t s2).
Proof.
  induction t as [d dirs rderr IH] using Tree_ind.
  intros path s1 s2 Hag HR.
  assert (Hloop : forall l, incl l dirs ->
             (forall p, In p (listPaths path l) -> agree p) ->
             forall a b, R a b ->
               same (walkEntries fn1 path l a) (walkEntries fn2 path l b)).
  { induction l as [|t1 rest IHl]; intros Hin Hp a b Hab.
    - split; [exact Hab | reflexivity].
    - cbn [walkEntries].
      destruct (IH t1 (Hin t1 (or_introl eq_refl))
                  (filepath.Join path (Name (entry t1))) a b) as [HR1 He1].
      + intros p Hpin. apply Hp. cbn [listPaths]. apply in_or_app. now left.
      + exact Hab.
      + destruct (walkDir fn1 (filepath.Join path (Name (entry t1))) t1 a) as [a1 r1].
        destruct (walkDir fn2 (filepath.Join path (Name (entry t1))) t1 b) as [b1 r2].
        cbn [fst snd] in HR1, He1. subst r2.
        destruct r1 as [e|].
        * destruct (error_eqb e SkipDir); split; auto.
        * apply IHl; [ | | exact HR1].
          -- intros x Hx. apply Hin. now right.
          -- intros p Hpin. apply Hp. cbn [listPaths]. apply in_or_app. now right. }
  rewrite treePaths_unfold in Hag.
  assert (Hhere : agree path) by (apply Hag; now left).
  assert (Hbelow : forall p, In p (listPaths path dirs) -> agree p)
    by (intros p Hp; apply Hag; now right).
  rewrite !walkDir_unfold.
  destruct (Hhere (Some d) None s1 s2 HR) as [HR1 He1].
  destruct (fn1 path (Some d) None s1) as [a1 r1].
  destruct (fn2 path (Some d) None s2) as [b1 r2].
  cbn [fst snd] in HR1, He1. subst r2.
  destruct r1 as [e|]; [split; auto | ].
  destruct (negb (IsDir d)); [split; auto | ].
  destruct rderr as [re|].
  - destruct (Hhere (Some d) (Some (Errno re)) a1 b1 HR1) as [HR2 He2].
    destruct (fn1 path (Some d) (Some (Errno re)) a1) as [a2 r1].
    destruct (fn2 path (Some d) (Some (Errno re)) b1) as [b2 r2].
    cbn [fst snd] in HR2, He2. subst r2.
    destruct r1 as [e|]; [split; auto | ].
    apply Hloop; auto using incl_refl.
  - apply Hloop; auto using incl_refl.
Qed.

Lemma WalkDir_rel lstat1 lstat2 root s1 s2 :
  (forall p, lstat1 p = lstat2 p) ->
  (forall t, lstat1 root = Ok t -> forall p, In p (treePaths root t) -> agree p) ->
  (forall e a b, R a b -> same (fn1 root None (Some e) a) (fn2 root None (Some e) b)) ->
  R s1 s2 ->
  same (WalkDir fn1 lstat1 root s1) (WalkDir fn2 lstat2 root s2).
Proof.
  intros Hl Htree Herr HR. unfold WalkDir. rewrite <- Hl.
  assert (H : same
                match lstat1 root with
                | Ok t => walkDir fn1 root t s1
                | Err e => fn1 root None (Some (Errno e)) s1
                end
                match lstat1 root with
                | Ok t => walkDir fn2 root t s2
                | Err e => fn2 root None (Some (Errno e)) s2
                end).
  { destruct (lstat1 root) as [t | e].
    - apply walkDir_rel; [now apply Htree | exact HR].
    - now apply Herr. }
  destruct (match lstat1 root with
            | Ok t => walkDir fn1 root t s1
            | Err e => fn1 root None (Some (Errno e)) s1
            end) as [a1 r1].
  destruct (match lstat1 root with
            | Ok t => walkDir fn2 root t s2
            | Err e => fn2 root None (Some (Errno e)) s2
            end) as [b1 r2].
  destruct H as [HR1 He]. cbn [fst snd] in HR1, He. subst r2.
  destruct r1 as [e|]; [ | split; auto].
  destruct (error_eqb e SkipDir || error_eqb e SkipAll); split; auto.
Qed.

End WalkRel.

(** ** The callback *)

(** The steps after the path steps: the output test, then the hidden
    names, then the serializer. *)
Lemma walkFn_resolved env repoPath outputFile path d st relativePath normalizedPath :
  resolves env repoPath path relativePath normalizedPath ->
  walkFn env repoPath outputFile path (Some d) None st =
  if String.eqb relativePath outputFile then (st, None)
  else if IsDir d then
         if isHidden (Name d) && negb (String.eqb (Name d) ".github")
         then (st, Some SkipDir) else (st, None)
       else if isHidden (Name d) then (st, None)
       else
         let '(st1, err) := writeFileContent env st normalizedPath relativePath in
         match err with
         | Some e =>
             (logged st1 "Error processing file"
                [("file", normalizedPath); ("error", e)], None)
         | None => (st1, None)
         end.
Proof.
  intros [Hrel [ev [Hev Habs]]]. unfold walkFn. rewrite Hrel, Hev, Habs. reflexivity.
Qed.

(** The callback never returns an error of the serializer. *)
Lemma walkFn_serialized env repoPath outputFile path d st relativePath normalizedPath :
  resolves env repoPath path relativePath normalizedPath ->
  relativePath <> outputFile -> IsDir d = false -> isHidden (Name d) = false ->
  snd (walkFn env repoPath outputFile path (Some d) None st) = None /\
  writer (fst (walkFn env repoPath outputFile path (Some d) None st))
  = writer (fst (writeFileContent env st normalizedPath relativePath)).
Proof.
  intros Hres Hne Hd Hh. rewrite (walkFn_resolved _ _ _ Hres).
  apply String.eqb_neq in Hne. rewrite Hne, Hd, Hh.
  destruct (writeFileContent env st normalizedPath relativePath) as [st1 [e|]];
    split; reflexivity.
Qed.


(** An error record is printed whatever the level of the handler. *)
Lemma logged_printed st m kv :
  In (mkRecord LevelError m kv) (printed (logger (logged st m kv))).
Proof.
  unfold logged, Error, emit. cbn [logger lvl].
  replace (levelNum (minLevel (logger st)) <=? levelNum LevelError)%Z with true
    by (destruct (minLevel (logger st)); reflexivity).
  cbn [printed]. apply in_or_app. right. now left.
Qed.

(** C3: the begin marker is written, the open fails with error [e] and
    the sink takes the diagnostic line. Then the serializer returns
    [e], and what it has appended is the begin marker followed by the
    one line [# Error reading <relativePath>: <e>], with no end marker;
    the callback logs the error and returns nil, and the loop over the
    directory goes on with the next entry. *)
Theorem open_failure_line
  env repoPath outputFile parent d dirs rderr rest st relativePath normalizedPath e w1 :
  let path := filepath.Join parent (Name d) in
  let fn := walkFn env repoPath outputFile in
  resolves env repoPath path relativePath normalizedPath ->
  relativePath <> outputFile -> IsDir d = false -> isHidden (Name d) = false ->
  WriteString (writer st) (beginMarker relativePath) = (w1, None) ->
  Open env normalizedPath = OpenFail e ->
  snd (WriteString w1 (errorLine relativePath e)) = None ->
  let st1 := fst (writeFileContent env st normalizedPath relativePath) in
  let st2 := logged st1 "Error processing file"
               [("file", normalizedPath); ("error", e)] in
  snd (writeFileContent env st normalizedPath relativePath) = Some e /\
  sent (writer st1) =
    sent (writer st)
    ++ LF ++ LF ++ "# BEGIN FILE: " ++ relativePath ++ LF ++ LF
    ++ "# Error reading " ++ relativePath ++ ": " ++ e ++ LF /\
  fn path (Some d) None st = (st2, None) /\
  In (mkRecord LevelError "Error processing file"
        [("file", normalizedPath); ("error", e)]) (printed (logger st2)) /\
  walkEntries fn parent (Node d dirs rderr :: rest) st = walkEntries fn parent rest st2.
Proof.
  intros path fn Hres Hne Hd Hh Hbegin Hopen Hline st1 st2.
  assert (Hw : writeFileContent env st normalizedPath relativePath
               = (mkState (fst (WriteString w1 (errorLine relativePath e)))
                    (Error (logger st) "Error opening file"
                       [("file", normalizedPath); ("error", e)]), Some e)).
  { unfold writeFileContent. rewrite Hbegin, Hopen.
    destruct (WriteString w1 (errorLine relativePath e)) as [w2 r].
    cbn [snd] in Hline. subst r. reflexivity. }
  assert (Hcb : fn path (Some d) None st = (st2, None)).
  { unfold fn. rewrite (walkFn_resolved _ _ _ Hres).
    apply String.eqb_neq in Hne. rewrite Hne, Hd, Hh.
    subst st2 st1. rewrite Hw. reflexivity. }
  split; [now rewrite Hw | ]. split; [ | split; [exact Hcb | split]].
  - subst st1. rewrite Hw. cbn [fst writer].
    destruct (WriteString w1 (errorLine relativePath e)) as [w2 r] eqn:E.
    cbn [snd] in Hline. subst r. cbn [fst].
    apply WriteString_accepted in E, Hbegin.
    destruct E as [E _], Hbegin as [Hb _]. rewrite E, Hb.
    unfold beginMarker, errorLine. rewrite !append_assoc. reflexivity.
  - subst st2. apply logged_printed.
  - cbn [walkEntries entry]. fold path. rewrite walkDir_file by exact Hd.
    fold fn. rewrite Hcb. reflexivity.
Qed.

(** An open failure makes the serializer return an error whether or not
    the sink takes the diagnostic line. *)
Lemma open_failure_returns_error env st filePath relativePath e :
  Open env filePath = OpenFail e ->
  snd (writeFileContent env st filePath relativePath) <> None.
Proof.
  intros Hopen. unfold writeFileContent. rewrite Hopen.
  destruct (WriteString (writer st) (beginMarker relativePath)) as [w1 [e1|]];
    [discriminate | ].
  destruct (WriteString w1 (errorLine relativePath e)) as [w2 [e2|]]; discriminate.
Qed.

(** An error of the walk, a failed symbolic link among them, ends the
    run with exit code 1. *)
Lemma walk_error_exit_1 fl env repoPath e st1 :
  Abs env (filepath.Clean (repo fl)) = Ok repoPath ->
  Create env (outputName fl env) = None ->
  WalkDir (walkFn env repoPath (outputName fl env)) (Lstat env) repoPath
    (startState fl env)
  = (st1, Some e) ->
  exitCode (main fl env) = 1%Z.
Proof.
  intros Habs Hcreate Hwalk. unfold main. fold (startState fl env).
  rewrite Habs, Hcreate, Hwalk. reflexivity.
Qed.

(** C1, as the code has it: when the resolution of symbolic links fails
    for an entry, the callback logs the error and returns it; the sink
    is left as it was, the walk of that entry returns the error, the
    loop over its directory stops there, the entries after it
    unvisited, the walk of the directory returns the error in turn, and
    a run whose walk returns it exits with code 1. *)
Theorem symlink_failure_stops_walk
  env repoPath outputFile parent t rest st relativePath e :
  let path := filepath.Join parent (Name (entry t)) in
  let fn := walkFn env repoPath outputFile in
  let st1 := logged st "Failed to evaluate symbolic link"
               [("path", path); ("error", e)] in
  filepath.Rel repoPath path = Ok relativePath ->
  EvalSymlinks env path = Err e ->
  fn path (Some (entry t)) None st = (st1, Some (Errno e)) /\
  In (mkRecord LevelError "Failed to evaluate symbolic link"
        [("path", path); ("error", e)]) (printed (logger st1)) /\
  writer st1 = writer st /\
  walkDir fn path t st = (st1, Some (Errno e)) /\
  walkEntries fn parent (t :: rest) st = (st1, Some (Errno e)) /\
  (forall d st0,
      IsDir d = true -> fn parent (Some d) None st0 = (st, None) ->
      walkDir fn parent (Node d (t :: rest) None) st0 = (st1, Some (Errno e))) /\
  (forall fl st',
      Abs env (filepath.Clean (repo fl)) = Ok repoPath ->
      outputName fl env = outputFile ->
      Create env outputFile = None ->
      WalkDir fn (Lstat env) repoPath (startState fl env) = (st', Some (Errno e)) ->
      exitCode (main fl env) = 1%Z).
Proof.
  intros path fn st1 Hrel Hev.
  assert (Hcb : fn path (Some (entry t)) None st = (st1, Some (Errno e)))
    by (unfold fn, walkFn; now rewrite Hrel, Hev).
  assert (Hw : walkDir fn path t st = (st1, Some (Errno e))).
  { destruct t as [d dirs rderr]. cbn [entry] in Hcb.
    rewrite walkDir_unfold, Hcb. reflexivity. }
  assert (Hloop : walkEntries fn parent (t :: rest) st = (st1, Some (Errno e))).
  { cbn [walkEntries]. fold path. rewrite Hw. reflexivity. }
  repeat split; try assumption.
  - subst st1. apply logged_printed.
  - intros d st0 Hd Hparent. rewrite walkDir_unfold, Hparent, Hd. exact Hloop.
  - intros fl st' Habs <- Hcreate Hwalk.
    now apply walk_error_exit_1 with (repoPath := repoPath) (e := Errno e) (st1 := st').
Qed.

(** The claim of C1 fails on a broken link: the run below ends with
    exit code 1 and an empty stream, [z.txt], listed after the link,
    never visited; without the link the same file is written. *)
Lemma broken_link_aborts_run :
  exitCode (main (flags "/r" "/tmp/out.txt") brokenLink) = 1%Z /\
  stream (main (flags "/r" "/tmp/out.txt") brokenLink) = "" /\
  main (flags "/r" "/tmp/out.txt") noLink
  = mkRun 0
      [mkRecord LevelInfo "Starting Colligo"
         [("repoPath", "/r"); ("outputFile", "/tmp/out.txt")];
       mkRecord LevelInfo "Successfully combined files"
         [("outputFile", "/tmp/out.txt")]]
      (block "z.txt" "hello").
Proof. vm_compute. repeat split; reflexivity. Qed.

Lemma Rel_self p : filepath.Rel p p = Ok ".".
Proof. unfold filepath.Rel. now rewrite String.eqb_refl. Qed.

(** C9: the root is a directory whose own name is hidden and is not
    [.github] (and it resolves, and the output file, which is not the
    directory [.], has been created). Then the first call of the
    callback, on the root, returns [SkipDir]; the walk ends there
    without an error, and the run exits with code 0 and an artifact of
    zero bytes. *)
Theorem hidden_root_empty_artifact fl env repoPath d dirs rderr normalizedPath :
  Abs env (filepath.Clean (repo fl)) = Ok repoPath ->
  Create env (outputName fl env) = None ->
  outputName fl env <> "." ->
  Lstat env repoPath = Ok (Node d dirs rderr) ->
  IsDir d = true -> isHidden (Name d) = true -> Name d <> ".github" ->
  resolves env repoPath repoPath "." normalizedPath ->
  let fn := walkFn env repoPath (outputName fl env) in
  (forall st, fn repoPath (Some d) None st = (st, Some SkipDir)) /\
  (forall st, WalkDir fn (Lstat env) repoPath st = (st, None)) /\
  exitCode (main fl env) = 0%Z /\
  stream (main fl env) = "" /\
  String.length (stream (main fl env)) = 0.
Proof.
  intros Habs Hcreate Hout Hlstat Hd Hh Hg Hres fn.
  assert (Hcb : forall st, fn repoPath (Some d) None st = (st, Some SkipDir)).
  { intros st. unfold fn. rewrite (walkFn_resolved _ _ _ Hres).
    assert (Hne : String.eqb "." (outputName fl env) = false)
      by (apply String.eqb_neq; congruence).
    apply String.eqb_neq in Hg. now rewrite Hne, Hd, Hh, Hg. }
  assert (Hwalk : forall st, WalkDir fn (Lstat env) repoPath st = (st, None)).
  { intros st. unfold WalkDir. rewrite Hlstat, walkDir_unfold, Hcb.
    unfold skipped. rewrite Hd. reflexivity. }
  assert (Hmain : main fl env
                  = mkRun 0 (diagnostics (main fl env)) "").
  { unfold main. fold (startState fl env). rewrite Habs, Hcreate. fold fn.
    rewrite Hwalk. reflexivity. }
  repeat split; try assumption; rewrite Hmain; reflexivity.
Qed.

(** Into a sink without a limit the serializer always writes the begin
    marker. *)
Lemma writeFileContent_begins env st filePath relativePath :
  unbounded (writer st) ->
  exists tail,
    sent (writer (fst (writeFileContent env st filePath relativePath)))
    = sent (writer st) ++ beginMarker relativePath ++ tail.
Proof.
  intros Hu. unfold writeFileContent. rewrite (WriteString_unbounded _ Hu).
  destruct (Open env filePath) as [e | c rerr cerr].
  - rewrite WriteString_unbounded by (split; reflexivity).
    exists (errorLine relativePath e). cbn [fst writer sent].
    now rewrite append_assoc.
  - unfold ioCopy. rewrite WriteString_unbounded by (split; reflexivity).
    destruct rerr as [e|].
    + exists c. cbn [fst writer sent]. now rewrite append_assoc.
    + rewrite WriteString_unbounded by (split; reflexivity).
      exists (c ++ endMarker relativePath). cbn [fst writer sent].
      now rewrite !append_assoc.
Qed.

(** ** Whole runs *)

Lemma writeFileContent_unbounded env st filePath relativePath :
  unbounded (writer st) ->
  unbounded (writer (fst (writeFileContent env st filePath relativePath))).
Proof.
  intros Hu. unfold writeFileContent. rewrite (WriteString_unbounded _ Hu).
  destruct (Open env filePath) as [e | c rerr cerr].
  - rewrite WriteString_unbounded by (split; reflexivity). split; reflexivity.
  - unfold ioCopy. rewrite WriteString_unbounded by (split; reflexivity).
    destruct rerr as [e|]; [split; reflexivity | ].
    rewrite WriteString_unbounded by (split; reflexivity). split; reflexivity.
Qed.


Lemma Abs_same_cwd env1 env2 p :
  Getwd env1 = Getwd env2 -> Abs env1 p = Abs env2 p.
Proof. intros H. unfold Abs. now rewrite H. Qed.

Ltac ends_alike :=
  cbn [fst snd logged writer] in *;
  repeat match goal with |- _ /\ _ => split end;
  try assumption; try reflexivity.

(** Whether a file can be opened and read does not decide what the
    callback returns, and sinks without a limit stay so. *)
Lemma walkFn_per_file env open repoPath outputFile p :
  agreeAt (walkFn (withOpen env open) repoPath outputFile)
          (walkFn env repoPath outputFile)
          (fun s1 s2 => unbounded (writer s1) /\ unbounded (writer s2)) p.
Proof.
  intros d e s1 s2 [Hu1 Hu2]. unfold sameWalk, walkFn.
  destruct e as [e|]; [ends_alike | ].
  destruct (filepath.Rel repoPath p) as [rel | e]; [ | ends_alike].
  change (EvalSymlinks (withOpen env open) p) with (EvalSymlinks env p).
  destruct (EvalSymlinks env p) as [ev | e]; [ | ends_alike].
  rewrite (@Abs_same_cwd (withOpen env open) env _ eq_refl).
  destruct (Abs env (filepath.Clean ev)) as [np | e]; [ | ends_alike].
  destruct (String.eqb rel outputFile); [ends_alike | ].
  destruct d as [d|]; [ | ends_alike].
  destruct (IsDir d).
  - destruct (isHidden (Name d) && negb (String.eqb (Name d) ".github")); ends_alike.
  - destruct (isHidden (Name d)); [ends_alike | ].
    pose proof (writeFileContent_unbounded (withOpen env open) s1 np rel Hu1) as H1.
    pose proof (writeFileContent_unbounded env s2 np rel Hu2) as H2.
    destruct (writeFileContent (withOpen env open) s1 np rel) as [a [x|]];
      destruct (writeFileContent env s2 np rel) as [b [y|]]; ends_alike.
Qed.

(** Nor does it, whatever the sinks are. *)
Lemma walkFn_error_only env open repoPath outputFile p :
  agreeAt (walkFn (withOpen env open) repoPath outputFile)
          (walkFn env repoPath outputFile)
          (fun _ _ => True) p.
Proof.
  intros d e s1 s2 _. unfold sameWalk, walkFn.
  destruct e as [e|]; [ends_alike; exact I | ].
  destruct (filepath.Rel repoPath p) as [rel | e]; [ | ends_alike; exact I].
  change (EvalSymlinks (withOpen env open) p) with (EvalSymlinks env p).
  destruct (EvalSymlinks env p) as [ev | e]; [ | ends_alike; exact I].
  rewrite (@Abs_same_cwd (withOpen env open) env _ eq_refl).
  destruct (Abs env (filepath.Clean ev)) as [np | e]; [ | ends_alike; exact I].
  destruct (String.eqb rel outputFile); [ends_alike; exact I | ].
  destruct d as [d|]; [ | ends_alike; exact I].
  destruct (IsDir d).
  - destruct (isHidden (Name d) && negb (String.eqb (Name d) ".github"));
      ends_alike; exact I.
  - destruct (isHidden (Name d)); [ends_alike; exact I | ].
    destruct (writeFileContent (withOpen env open) s1 np rel) as [a [x|]];
      destruct (writeFileContent env s2 np rel) as [b [y|]]; ends_alike; exact I.
Qed.


Lemma main_unfold fl env :
  main fl env =
  let outputFile := outputName fl env in
  let lg := logger (startState fl env) in
  match Abs env (filepath.Clean (repo fl)) with
  | Err e =>
      mkRun 1 (printed (Error lg "Failed to normalize repository path"
                          [("repoPath", repo fl); ("error", e)])) ""
  | Ok repoPath =>
  match Create env outputFile with
  | Some e =>
      mkRun 1 (printed (Error lg "Error creating output file" [("error", e)])) ""
  | None =>
      let r := WalkDir (walkFn env repoPath outputFile) (Lstat env) repoPath
                 (startState fl env) in
      match snd r with
      | Some e =>
          mkRun 1 (printed (Error (logger (fst r)) "Error walking the path"
                              [("repoPath", repoPath); ("error", errText e)]))
                (sent (writer (fst r)))
      | None =>
          match Flush (writer (fst r)) with
          | Some e =>
              mkRun 1 (printed (Error (logger (fst r)) "Error flushing writer"
                                  [("error", e)]))
                    (sent (writer (fst r)))
          | None =>
              let lg1 := Info (logger (fst r)) "Successfully combined files"
                           [("outputFile", outputFile)] in
              let lg2 := match CloseOut env with
                         | Some e => Error lg1 "Error closing output file" [("error", e)]
                         | None => lg1
                         end in
              mkRun 0 (printed lg2) (sent (writer (fst r)))
          end
      end
  end end.
Proof.
  unfold main. fold (startState fl env). cbn zeta.
  destruct (Abs env (filepath.Clean (repo fl))) as [repoPath | e]; [ | reflexivity].
  destruct (Create env (outputName fl env)) as [e|]; [reflexivity | ].
  destruct (WalkDir (walkFn env repoPath (outputName fl env)) (Lstat env) repoPath
              (startState fl env)) as [st1 [e|]]; reflexivity.
Qed.


(** ** The theorems at work on the sample trees *)

Ltac by_running := vm_compute; reflexivity.

Ltac resolved :=
  split; [by_running | eexists; split; by_running].

Lemma symlink_failure_stops_walk_witness :
  walkEntries (walkFn brokenLink "/r" "/tmp/out.txt") "/r"
    [file "broken"; file "z.txt"] fresh
  = (logged fresh "Failed to evaluate symbolic link"
       [("path", "/r/broken"); ("error", "lstat /r/broken: no such file or directory")],
     Some (Errno "lstat /r/broken: no such file or directory")).
Proof.
  refine (proj1 (proj2 (proj2 (proj2 (proj2
    (@symlink_failure_stops_walk brokenLink "/r" "/tmp/out.txt" "/r"
       (file "broken") [file "z.txt"] fresh "broken"
       "lstat /r/broken: no such file or directory" _ _)))))); by_running.
Defined.

Lemma writeFileContent_appends_block_witness :
  Open emptied "/r/empty.txt" = Opened "" None None /\
  sent (writer (fst (writeFileContent emptied fresh "/r/empty.txt" "empty.txt")))
  = "" ++ LF ++ LF ++ "# BEGIN FILE: " ++ "empty.txt" ++ LF ++ LF
    ++ "" ++ LF ++ LF ++ "# END FILE: " ++ "empty.txt" ++ LF ++ LF /\
  snd (writeFileContent emptied fresh "/r/empty.txt" "empty.txt") = None.
Proof.
  assert (Hopen : Open emptied "/r/empty.txt" = Opened "" None None) by by_running.
  pose proof (@writeFileContent_appends_block emptied fresh "/r/empty.txt" "empty.txt"
                "" None None Hopen) as [Hbytes Hruns].
  assert (Hnone : snd (writeFileContent emptied fresh "/r/empty.txt" "empty.txt") = None)
    by (apply Hruns; [split; reflexivity | reflexivity]).
  split; [exact Hopen | ]. split; [ | exact Hnone].
  apply Hbytes.
  destruct (writeFileContent emptied fresh "/r/empty.txt" "empty.txt") as [st' r].
  cbn [snd] in Hnone. now subst r.
Defined.

Lemma open_failure_line_witness :
  sent (writer (fst (writeFileContent vanished fresh "/r/gone.txt" "gone.txt")))
  = "" ++ LF ++ LF ++ "# BEGIN FILE: " ++ "gone.txt" ++ LF ++ LF
    ++ "# Error reading " ++ "gone.txt" ++ ": "
    ++ "open /r/gone.txt: no such file or directory" ++ LF /\
  walkEntries (walkFn vanished "/r" "/tmp/out.txt") "/r"
    [file "gone.txt"; file "z.txt"] fresh
  = walkEntries (walkFn vanished "/r" "/tmp/out.txt") "/r" [file "z.txt"]
      (logged (fst (writeFileContent vanished fresh "/r/gone.txt" "gone.txt"))
         "Error processing file"
         [("file", "/r/gone.txt");
          ("error", "open /r/gone.txt: no such file or directory")]).
Proof.
  assert (Hres : resolves vanished "/r" (filepath.Join "/r" "gone.txt")
                   "gone.txt" "/r/gone.txt") by resolved.
  assert (Hne : "gone.txt" <> "/tmp/out.txt") by discriminate.
  pose proof (@open_failure_line vanished "/r" "/tmp/out.txt" "/r"
                (mkDirEntry "gone.txt" false) [] None [file "z.txt"] fresh
                "gone.txt" "/r/gone.txt" "open /r/gone.txt: no such file or directory"
                (fst (WriteString (writer fresh) (beginMarker "gone.txt")))
                Hres Hne eq_refl eq_refl eq_refl eq_refl eq_refl)
    as (_ & Hline & _ & _ & Hnext).
  split; [exact Hline | exact Hnext].
Defined.



Lemma hidden_root_empty_artifact_witness :
  isHidden ".cfg" = true /\
  exitCode (main (flags "/home/.cfg" "/tmp/out.txt") hiddenRoot) = 0%Z /\
  stream (main (flags "/home/.cfg" "/tmp/out.txt") hiddenRoot) = "".
Proof.
  assert (Hres : resolves hiddenRoot "/home/.cfg" "/home/.cfg" "." "/home/.cfg")
    by resolved.
  assert (Hout : outputName (flags "/home/.cfg" "/tmp/out.txt") hiddenRoot <> ".")
    by (vm_compute; discriminate).
  assert (Hg : Name (mkDirEntry ".cfg" true) <> ".github") by discriminate.
  pose proof (@hidden_root_empty_artifact (flags "/home/.cfg" "/tmp/out.txt") hiddenRoot
                "/home/.cfg" (mkDirEntry ".cfg" true) [file "a.txt"] None "/home/.cfg"
                eq_refl eq_refl Hout eq_refl eq_refl eq_refl Hg Hres)
    as (_ & _ & Hexit & Hstream & _).
  split; [reflexivity | ]. split; [exact Hexit | exact Hstream].
Defined.

(** ** Further runs *)

(** The file that is gone when it is opened leaves one line in the
    artifact and one error on the diagnostic stream; the walk goes on
    and the run succeeds. *)
Example vanished_run :
  exitCode (main (flags "/r" "/tmp/out.txt") vanished) = 0%Z /\
  stream (main (flags "/r" "/tmp/out.txt") vanished)
  = beginMarker "gone.txt"
    ++ errorLine "gone.txt" "open /r/gone.txt: no such file or directory"
    ++ block "z.txt" "hello" /\
  map msg (diagnostics (main (flags "/r" "/tmp/out.txt") vanished))
  = ["Starting Colligo"; "Error opening file"; "Error processing file";
     "Successfully combined files"].
Proof. repeat split; by_running. Qed.

(** An empty file gives a block with nothing between its markers. *)
Example emptied_run :
  stream (main (flags "/r" "/tmp/out.txt") emptied)
  = beginMarker "empty.txt" ++ endMarker "empty.txt".
Proof. by_running. Qed.

(** Started in the root with a relative output name, the artifact is
    left out of itself. *)
Example inTree_run :
  stream (main (flags "." "out.txt") inTree) = block "a.txt" "hello".
Proof. by_running. Qed.

(** * Further properties of the walk and of the serializer *)

Lemma treeEntries_unfold path d dirs rderr :
  treeEntries path (Node d dirs rderr) = (path, d) :: listEntries path dirs.
Proof.
  cbn [treeEntries]. f_equal.
  induction dirs as [|t1 rest IHl]; [reflexivity | ].
  cbn [listEntries]. now rewrite IHl.
Qed.

Lemma readable_unfold d dirs rderr :
  readable (Node d dirs rderr) = true <->
  rderr = None /\ forall t, In t dirs -> readable t = true.
Proof.
  cbn [readable]. destruct rderr as [re|].
  - split; [discriminate | intros [H _]; discriminate].
  - induction dirs as [|t1 rest IHl].
    + split; [intros _; split; [reflexivity | intros t []] | reflexivity].
    + rewrite andb_true_iff, IHl. split.
      * intros [H1 [_ H2]]. split; [reflexivity | ].
        intros t [<- | Hin]; auto.
      * intros [_ H]. split; [apply H; now left | ].
        split; [reflexivity | ]. intros t Hin. apply H. now right.
Qed.

(** A property of the state that every call of the callback on an
    entry of the tree keeps is kept by the walk of the tree. *)
Section WalkInvariant.

Variable St : Type.
Variable fn : WalkDirFunc St.
Variable P : St -> Prop.

Lemma walkDir_invariant t :
  forall path,
    (forall p d e st, In (p, d) (treeEntries path t) -> P st ->
                      P (fst (fn p (Some d) e st))) ->
    forall st, P st -> P (fst (walkDir fn path t st)).
Proof.
  induction t as [d dirs rderr IH] using Tree_ind.
  intros path Hfn st HP.
  rewrite treeEntries_unfold in Hfn.
  assert (Hloop : forall l, incl l dirs ->
             (forall x, In x (listEntries path l) -> In x (listEntries path dirs)) ->
             forall s, P s -> P (fst (walkEntries fn path l s))).
  { induction l as [|t1 rest IHl]; intros Hin Hsub s Hs; [exact Hs | ].
    cbn [walkEntries].
    assert (H1 : P (fst (walkDir fn (filepath.Join path (Name (entry t1))) t1 s))).
    { apply IH; [apply Hin; now left | | exact Hs].
      intros p d0 e st0 Hp. apply Hfn. right. apply Hsub.
      cbn [listEntries]. apply in_or_app. now left. }
    destruct (walkDir fn (filepath.Join path (Name (entry t1))) t1 s) as [s1 [e|]].
    - destruct (error_eqb e SkipDir); exact H1.
    - apply IHl; [ | | exact H1].
      + intros x Hx. apply Hin. now right.
      + intros x Hx. apply Hsub. cbn [listEntries]. apply in_or_app. now right. }
  rewrite walkDir_unfold.
  pose proof (Hfn path d None st (or_introl eq_refl) HP) as H1.
  destruct (fn path (Some d) None st) as [st1 [e|]]; [exact H1 | ].
  cbn [fst] in H1.
  destruct (negb (IsDir d)); [exact H1 | ].
  destruct rderr as [re|].
  - pose proof (Hfn path d (Some (Errno re)) st1 (or_introl eq_refl) H1) as H2.
    destruct (fn path (Some d) (Some (Errno re)) st1) as [st2 [e|]]; [exact H2 | ].
    apply Hloop; auto using incl_refl.
  - apply Hloop; auto using incl_refl.
Qed.

End WalkInvariant.

(** ** Nothing written is ever taken back *)

Lemma sink_more_trans (a b c : Writer) :
  (exists t, sent b = sent a ++ t) -> (exists t, sent c = sent b ++ t) ->
  exists t, sent c = sent a ++ t.
Proof.
  intros [t1 H1] [t2 H2]. exists (t1 ++ t2). now rewrite H2, H1, append_assoc.
Qed.

Lemma log_more_trans (a b c : Logger) :
  (exists m, printed b = (printed a ++ m)%list) ->
  (exists m, printed c = (printed b ++ m)%list) ->
  exists m, printed c = (printed a ++ m)%list.
Proof.
  intros [m1 H1] [m2 H2]. exists (m1 ++ m2)%list. now rewrite H2, H1, app_assoc.
Qed.

Lemma WriteString_more w s :
  exists t, sent (fst (WriteString w s)) = sent w ++ t.
Proof.
  unfold WriteString. destruct (werr w).
  - exists "". cbn [fst]. clear. induction (sent w); cbn; congruence.
  - destruct (room w) as [n|]; [destruct (String.length s <=? n)%nat | ];
      cbn [fst sent]; eauto.
Qed.

Lemma ioCopy_more w c rerr :
  exists t, sent (fst (ioCopy w c rerr)) = sent w ++ t.
Proof.
  unfold ioCopy. pose proof (WriteString_more w c) as H.
  destruct (WriteString w c) as [w1 [e|]]; exact H.
Qed.

Lemma Error_more lg m kv :
  exists more, printed (Error lg m kv) = (printed lg ++ more)%list.
Proof.
  unfold Error, emit.
  destruct (levelNum (minLevel lg) <=? levelNum (lvl (mkRecord LevelError m kv)))%Z.
  - cbn [printed]. eauto.
  - exists []. now rewrite app_nil_r.
Qed.

Lemma closeFile_more filePath cerr lg :
  exists more, printed (closeFile filePath cerr lg) = (printed lg ++ more)%list.
Proof.
  destruct cerr as [e|]; cbn [closeFile]; [apply Error_more | ].
  exists []. now rewrite app_nil_r.
Qed.

Lemma extends_refl st : extends st st.
Proof.
  split; [exists ""; clear; induction (sent (writer st)); cbn; congruence | ].
  exists []. now rewrite app_nil_r.
Qed.

Lemma extends_trans a b c : extends a b -> extends b c -> extends a c.
Proof.
  intros [Hw1 Hl1] [Hw2 Hl2]. split.
  - exact (sink_more_trans _ _ _ Hw1 Hw2).
  - exact (log_more_trans _ _ _ Hl1 Hl2).
Qed.

Lemma extends_logged st m kv : extends st (logged st m kv).
Proof.
  split; [apply (proj1 (extends_refl st)) | ]. cbn [logged logger]. apply Error_more.
Qed.

Lemma writeFileContent_extends env st filePath relativePath :
  extends st (fst (writeFileContent env st filePath relativePath)).
Proof.
  unfold writeFileContent.
  pose proof (WriteString_more (writer st) (beginMarker relativePath)) as H1.
  destruct (WriteString (writer st) (beginMarker relativePath)) as [w1 [e|]];
    cbn [fst] in *.
  { split; cbn [writer logger]; [exact H1 | apply Error_more]. }
  destruct (Open env filePath) as [e | c rerr cerr].
  - pose proof (WriteString_more w1 (errorLine relativePath e)) as H2.
    destruct (WriteString w1 (errorLine relativePath e)) as [w2 [we|]];
      cbn [fst] in *; split; cbn [writer logger];
      try exact (sink_more_trans _ _ _ H1 H2).
    + eapply log_more_trans; apply Error_more.
    + apply Error_more.
  - pose proof (ioCopy_more w1 c rerr) as H2.
    destruct (ioCopy w1 c rerr) as [w2 [e|]]; cbn [fst] in *.
    + split; cbn [writer logger]; [exact (sink_more_trans _ _ _ H1 H2) | ].
      eapply log_more_trans; [apply Error_more | apply closeFile_more].
    + pose proof (WriteString_more w2 (endMarker relativePath)) as H3.
      destruct (WriteString w2 (endMarker relativePath)) as [w3 [e|]];
        cbn [fst] in *; split; cbn [writer logger];
        try exact (sink_more_trans _ _ _ H1 (sink_more_trans _ _ _ H2 H3)).
      * eapply log_more_trans; [apply Error_more | apply closeFile_more].
      * apply closeFile_more.
Qed.

Lemma walkFn_extends env repoPath outputFile p d e st :
  extends st (fst (walkFn env repoPath outputFile p d e st)).
Proof.
  unfold walkFn.
  destruct e as [e|]; [apply extends_logged | ].
  destruct (filepath.Rel repoPath p) as [rel | e]; [ | apply extends_logged].
  destruct (EvalSymlinks env p) as [ev | e]; [ | apply extends_logged].
  destruct (Abs env (filepath.Clean ev)) as [np | e]; [ | apply extends_logged].
  destruct (String.eqb rel outputFile); [apply extends_refl | ].
  destruct d as [d|]; [ | apply extends_refl].
  destruct (IsDir d).
  - destruct (isHidden (Name d) && negb (String.eqb (Name d) ".github"));
      apply extends_refl.
  - destruct (isHidden (Name d)); [apply extends_refl | ].
    pose proof (writeFileContent_extends env st np rel) as H.
    destruct (writeFileContent env st np rel) as [st1 [x|]]; cbn [fst] in *.
    + eapply extends_trans; [exact H | apply extends_logged].
    + exact H.
Qed.

(** X1: the walk only appends. Whatever the tree holds and whatever
    fails, the sink after the walk is the sink before it with bytes
    added at its end, and so is the diagnostic stream with records. *)
Theorem walk_only_appends env repoPath outputFile :
  let fn := walkFn env repoPath outputFile in
  (forall t path st, extends st (fst (walkDir fn path t st))) /\
  (forall st, extends st (fst (WalkDir fn (Lstat env) repoPath st))).
Proof.
  intros fn.
  assert (Hwalk : forall t path st, extends st (fst (walkDir fn path t st))).
  { intros t path st. apply walkDir_invariant with (P := extends st).
    - intros p d e st0 _ H. eapply extends_trans; [exact H | apply walkFn_extends].
    - apply extends_refl. }
  split; [exact Hwalk | ].
  intros st. unfold WalkDir.
  assert (H : extends st (fst match Lstat env repoPath with
                              | Ok t => walkDir fn repoPath t st
                              | Err e => fn repoPath None (Some (Errno e)) st
                              end)).
  { destruct (Lstat env repoPath) as [t | e]; [apply Hwalk | apply walkFn_extends]. }
  destruct (match Lstat env repoPath with
            | Ok t => walkDir fn repoPath t st
            | Err e => fn repoPath None (Some (Errno e)) st
            end) as [st1 [e|]]; [ | exact H].
  destruct (error_eqb e SkipDir || error_eqb e SkipAll); exact H.
Qed.

(** ** Failures while a file is copied *)

(** X2: the begin marker is written, the file opens, its read fails
    with [e] after the bytes [C], and the sink takes [C]. Then the
    serializer returns [e]; the sink holds the begin marker and [C],
    the bytes copied before the failure, and no end marker; the
    callback logs the error and returns nil, and the loop over the
    directory goes on with the next entry. *)
Theorem read_failure_keeps_copied_bytes
  env repoPath outputFile parent d dirs rderr rest st relativePath normalizedPath
  C e cerr w1 :
  let path := filepath.Join parent (Name d) in
  let fn := walkFn env repoPath outputFile in
  resolves env repoPath path relativePath normalizedPath ->
  relativePath <> outputFile -> IsDir d = false -> isHidden (Name d) = false ->
  WriteString (writer st) (beginMarker relativePath) = (w1, None) ->
  Open env normalizedPath = Opened C (Some e) cerr ->
  snd (WriteString w1 C) = None ->
  let st1 := fst (writeFileContent env st normalizedPath relativePath) in
  let st2 := logged st1 "Error processing file"
               [("file", normalizedPath); ("error", e)] in
  snd (writeFileContent env st normalizedPath relativePath) = Some e /\
  sent (writer st1) =
    sent (writer st) ++ LF ++ LF ++ "# BEGIN FILE: " ++ relativePath ++ LF ++ LF ++ C /\
  logger st1 =
    closeFile normalizedPath cerr
      (Error (logger st) "Error copying file content"
         [("file", normalizedPath); ("error", e)]) /\
  fn path (Some d) None st = (st2, None) /\
  walkEntries fn parent (Node d dirs rderr :: rest) st = walkEntries fn parent rest st2.
Proof.
  intros path fn Hres Hne Hd Hh Hbegin Hopen Hcopy st1 st2.
  assert (Hw : writeFileContent env st normalizedPath relativePath
               = (mkState (fst (WriteString w1 C))
                    (closeFile normalizedPath cerr
                       (Error (logger st) "Error copying file content"
                          [("file", normalizedPath); ("error", e)])), Some e)).
  { unfold writeFileContent, ioCopy. rewrite Hbegin, Hopen.
    destruct (WriteString w1 C) as [w2 r]. cbn [snd] in Hcopy. subst r. reflexivity. }
  assert (Hcb : fn path (Some d) None st = (st2, None)).
  { unfold fn. rewrite (walkFn_resolved _ _ _ Hres).
    apply String.eqb_neq in Hne. rewrite Hne, Hd, Hh.
    subst st2 st1. rewrite Hw. reflexivity. }
  split; [now rewrite Hw | ]. split; [ | split; [ | split; [exact Hcb | ]]].
  - subst st1. rewrite Hw. cbn [fst writer].
    destruct (WriteString w1 C) as [w2 r] eqn:E. cbn [snd] in Hcopy. subst r.
    cbn [fst]. apply WriteString_accepted in E, Hbegin.
    destruct E as [E _], Hbegin as [Hb _]. rewrite E, Hb.
    unfold beginMarker. rewrite !append_assoc. reflexivity.
  - subst st1. now rewrite Hw.
  - cbn [walkEntries entry]. fold path. rewrite walkDir_file by exact Hd.
    fold fn. rewrite Hcb. reflexivity.
Qed.

(** ** A sink that has failed *)

Lemma failed_writer_serializer env st filePath relativePath e :
  werr (writer st) = Some e ->
  writeFileContent env st filePath relativePath
  = (mkState (writer st)
       (Error (logger st) "Error writing header"
          [("file", relativePath); ("error", e)]), Some e).
Proof.
  intros He. unfold writeFileContent, WriteString. rewrite He. reflexivity.
Qed.

Lemma failed_writer_callback env repoPath outputFile p d e0 st :
  writer (fst (walkFn env repoPath outputFile p d e0 st)) = writer st \/
  werr (writer st) = None.
Proof.
  destruct (werr (writer st)) as [e|] eqn:He; [left | now right].
  unfold walkFn.
  destruct e0 as [e0|]; [reflexivity | ].
  destruct (filepath.Rel repoPath p) as [rel | x]; [ | reflexivity].
  destruct (EvalSymlinks env p) as [ev | x]; [ | reflexivity].
  destruct (Abs env (filepath.Clean ev)) as [np | x]; [ | reflexivity].
  destruct (String.eqb rel outputFile); [reflexivity | ].
  destruct d as [d|]; [ | reflexivity].
  destruct (IsDir d).
  - destruct (isHidden (Name d) && negb (String.eqb (Name d) ".github")); reflexivity.
  - destruct (isHidden (Name d)); [reflexivity | ].
    rewrite (failed_writer_serializer env st np rel He). reflexivity.
Qed.

(** X3: once the writer has failed, the error stays. The serializer
    then returns it at the begin marker, without opening the file, so
    whatever the files are; the rest of the walk adds no byte to the
    sink; and the final flush returns the error. *)
Theorem failed_writer_stays_failed env repoPath outputFile st e :
  werr (writer st) = Some e ->
  let fn := walkFn env repoPath outputFile in
  (forall open filePath relativePath,
      snd (writeFileContent (withOpen env open) st filePath relativePath) = Some e /\
      writer (fst (writeFileContent (withOpen env open) st filePath relativePath))
      = writer st) /\
  (forall t path, writer (fst (walkDir fn path t st)) = writer st) /\
  writer (fst (WalkDir fn (Lstat env) repoPath st)) = writer st /\
  Flush (writer (fst (WalkDir fn (Lstat env) repoPath st))) = Some e.
Proof.
  intros He fn.
  assert (Hkeep : forall p d e0 s, writer s = writer st ->
                    writer (fst (fn p d e0 s)) = writer st).
  { intros p d e0 s Hs.
    destruct (failed_writer_callback env repoPath outputFile p d e0 s) as [H | H].
    - fold fn in H. now rewrite H.
    - rewrite Hs, He in H. discriminate. }
  assert (Hwalk : forall t path, writer (fst (walkDir fn path t st)) = writer st).
  { intros t path.
    apply walkDir_invariant with (P := fun s => writer s = writer st);
      [ | reflexivity].
    intros p d e0 s _ Hs. now apply Hkeep. }
  assert (HWalk : writer (fst (WalkDir fn (Lstat env) repoPath st)) = writer st).
  { unfold WalkDir.
    assert (H : writer (fst match Lstat env repoPath with
                            | Ok t => walkDir fn repoPath t st
                            | Err x => fn repoPath None (Some (Errno x)) st
                            end) = writer st).
    { destruct (Lstat env repoPath) as [t | x]; [apply Hwalk | now apply Hkeep]. }
    destruct (match Lstat env repoPath with
              | Ok t => walkDir fn repoPath t st
              | Err x => fn repoPath None (Some (Errno x)) st
              end) as [st1 [x|]]; [ | exact H].
    destruct (error_eqb x SkipDir || error_eqb x SkipAll); exact H. }
  split; [ | split; [exact Hwalk | split; [exact HWalk | ]]].
  - intros open filePath relativePath.
    rewrite (failed_writer_serializer (withOpen env open) st filePath relativePath He).
    split; reflexivity.
  - unfold Flush. now rewrite HWalk.
Qed.

(** ** Directories that cannot be read, roots that do not exist *)

Lemma Error_printed lg m kv :
  printed (Error lg m kv) = (printed lg ++ [mkRecord LevelError m kv])%list.
Proof.
  unfold Error, emit. cbn [lvl].
  now destruct (minLevel lg).
Qed.

(** X4: a directory that passes the callback but cannot be read ends
    the walk. The callback is called a second time with the error of
    [ReadDir], logs it and returns it; the entries of the directory
    are not visited, nor are the entries listed after it in its
    parent, and the sink is as the first call left it. *)
Theorem unreadable_directory_stops_walk
  env repoPath outputFile parent d dirs re rest st relativePath normalizedPath :
  let path := filepath.Join parent (Name d) in
  let fn := walkFn env repoPath outputFile in
  let st1 := logged st "Error accessing path" [("path", path); ("error", re)] in
  resolves env repoPath path relativePath normalizedPath ->
  IsDir d = true ->
  isHidden (Name d) && negb (String.eqb (Name d) ".github") = false ->
  walkDir fn path (Node d dirs (Some re)) st = (st1, Some (Errno re)) /\
  walkEntries fn parent (Node d dirs (Some re) :: rest) st = (st1, Some (Errno re)) /\
  writer st1 = writer st /\
  printed (logger st1)
  = (printed (logger st)
     ++ [mkRecord LevelError "Error accessing path" [("path", path); ("error", re)]])%list.
Proof.
  intros path fn st1 Hres Hd Hvis.
  assert (Hfirst : fn path (Some d) None st = (st, None)).
  { unfold fn. rewrite (walkFn_resolved _ _ _ Hres), Hd, Hvis.
    now destruct (String.eqb relativePath outputFile). }
  assert (Hw : walkDir fn path (Node d dirs (Some re)) st = (st1, Some (Errno re))).
  { rewrite walkDir_unfold, Hfirst, Hd. reflexivity. }
  split; [exact Hw | ]. split; [ | split; [reflexivity | ]].
  - cbn [walkEntries entry]. fold path. rewrite Hw. reflexivity.
  - subst st1. cbn [logged logger]. apply Error_printed.
Qed.

(** X5: when the root, though its path could be made absolute, does
    not exist (or cannot be examined), the output file has already
    been created; the callback is called once, with the error of
    [Lstat]; nothing is written, two error records follow what the
    logger had printed, and the run exits with code 1. *)
Theorem missing_root_exits_1 fl env repoPath e :
  Abs env (filepath.Clean (repo fl)) = Ok repoPath ->
  Create env (outputName fl env) = None ->
  Lstat env repoPath = Err e ->
  exitCode (main fl env) = 1%Z /\
  stream (main fl env) = "" /\
  diagnostics (main fl env)
  = (printed (logger (startState fl env))
     ++ [mkRecord LevelError "Error accessing path" [("path", repoPath); ("error", e)];
         mkRecord LevelError "Error walking the path"
           [("repoPath", repoPath); ("error", e)]])%list.
Proof.
  intros Habs Hcreate Hlstat.
  rewrite main_unfold. cbn zeta. rewrite Habs, Hcreate.
  unfold WalkDir. rewrite Hlstat. cbn -[startState Error].
  repeat split.
  rewrite !Error_printed, <- app_assoc. reflexivity.
Qed.

(** ** What the walk returns *)

(** The callback returns [SkipDir] for directories alone, and
    otherwise nil or the error of an operation. *)
Lemma walkFn_error_kind env repoPath outputFile p d e0 st err :
  (forall e, e0 = Some e -> exists text, e = Errno text) ->
  snd (walkFn env repoPath outputFile p (Some d) e0 st) = Some err ->
  (exists text, err = Errno text) \/ (err = SkipDir /\ IsDir d = true).
Proof.
  intros He0. unfold walkFn.
  destruct e0 as [e|].
  { cbn [snd]. intros H; injection H as <-. left. now apply He0. }
  destruct (filepath.Rel repoPath p) as [rel | x];
    [ | cbn [snd]; intros H; injection H as <-; left; eauto].
  destruct (EvalSymlinks env p) as [ev | x];
    [ | cbn [snd]; intros H; injection H as <-; left; eauto].
  destruct (Abs env (filepath.Clean ev)) as [np | x];
    [ | cbn [snd]; intros H; injection H as <-; left; eauto].
  destruct (String.eqb rel outputFile); [discriminate | ].
  destruct (IsDir d) eqn:Hd.
  - destruct (isHidden (Name d) && negb (String.eqb (Name d) ".github"));
      [ | discriminate].
    cbn [snd]. intros H; injection H as <-. now right.
  - destruct (isHidden (Name d)); [discriminate | ].
    destruct (writeFileContent env st np rel) as [st1 [x|]]; discriminate.
Qed.

Lemma walkDir_error_kind env repoPath outputFile t :
  forall path st err,
    snd (walkDir (walkFn env repoPath outputFile) path t st) = Some err ->
    exists text, err = Errno text.
Proof.
  induction t as [d dirs rderr IH] using Tree_ind.
  intros path st err.
  assert (Hloop : forall l, incl l dirs -> forall s,
             snd (walkEntries (walkFn env repoPath outputFile) path l s) = Some err ->
             exists text, err = Errno text).
  { induction l as [|t1 rest IHl]; intros Hin s; [discriminate | ].
    cbn [walkEntries].
    pose proof (IH t1 (Hin t1 (or_introl eq_refl))
                  (filepath.Join path (Name (entry t1))) s) as H1.
    destruct (walkDir (walkFn env repoPath outputFile)
                (filepath.Join path (Name (entry t1))) t1 s) as [s1 [e|]].
    - destruct (error_eqb e SkipDir); [discriminate | ].
      cbn [snd]. intros H; injection H as <-. now apply H1.
    - apply IHl. intros x Hx. apply Hin. now right. }
  rewrite walkDir_unfold.
  pose proof (@walkFn_error_kind env repoPath outputFile path d None st) as H1.
  destruct (walkFn env repoPath outputFile path (Some d) None st) as [st1 [e|]].
  - destruct (H1 e) as [Hk | [-> Hd]]; [discriminate | reflexivity | | ].
    + destruct Hk as [text ->]. unfold skipped. cbn [error_eqb andb snd].
      intros H; injection H as <-. eauto.
    + unfold skipped. rewrite Hd. discriminate.
  - destruct (negb (IsDir d)); [discriminate | ].
    destruct rderr as [re|]; [ | now apply Hloop, incl_refl].
    pose proof (@walkFn_error_kind env repoPath outputFile path d
                  (Some (Errno re)) st1) as H2.
    destruct (walkFn env repoPath outputFile path (Some d) (Some (Errno re)) st1)
      as [st2 [e|]]; [ | now apply Hloop, incl_refl].
    destruct (H2 e) as [Hk | [-> Hd]].
    + intros x Hx. injection Hx as <-. eauto.
    + reflexivity.
    + destruct Hk as [text ->]. unfold skipped. cbn [error_eqb andb snd].
      intros H; injection H as <-. eauto.
    + unfold skipped. rewrite Hd. discriminate.
Qed.

(** X6: [SkipDir] never leaves the directory it was returned for.
    With this callback the walk of an entry returns nil or the error
    of an operation, never a sentinel; so the walk of a listing is the
    walk of its first part followed, when that returned nil, by the
    walk of the rest from the state reached: no entry ends the listing
    of its directory early. *)
Theorem listing_walk_composes env repoPath outputFile :
  let fn := walkFn env repoPath outputFile in
  (forall t path st,
      snd (walkDir fn path t st) <> Some SkipDir /\
      snd (walkDir fn path t st) <> Some SkipAll) /\
  (forall path l1 l2 st,
      walkEntries fn path (l1 ++ l2) st =
      match walkEntries fn path l1 st with
      | (st1, None) => walkEntries fn path l2 st1
      | (st1, Some e) => (st1, Some e)
      end).
Proof.
  intros fn. split.
  - intros t path st. split; intros H;
      destruct (walkDir_error_kind env repoPath outputFile t path st H) as [x Hx];
      discriminate.
  - intros path l1 l2. induction l1 as [|t1 rest IHl]; intros st; [reflexivity | ].
    cbn [app walkEntries].
    pose proof (walkDir_error_kind env repoPath outputFile t1
                  (filepath.Join path (Name (entry t1))) st) as Hk.
    fold fn in Hk.
    destruct (walkDir fn (filepath.Join path (Name (entry t1))) t1 st) as [s1 [e|]].
    + destruct (Hk e eq_refl) as [text ->]. reflexivity.
    + apply IHl.
Qed.

(** ** The shape of the artifact *)

Lemma renderAll_app l1 l2 : renderAll (l1 ++ l2) = renderAll l1 ++ renderAll l2.
Proof.
  induction l1 as [|it rest IHl]; [reflexivity | ].
  cbn [app renderAll]. now rewrite IHl, append_assoc.
Qed.

(** One call of the serializer on a sink that takes every byte leaves
    one item. *)
Lemma writeFileContent_item env st filePath relativePath :
  unbounded (writer st) ->
  exists it,
    relOf it = relativePath /\ fromFile env filePath it /\
    sent (writer (fst (writeFileContent env st filePath relativePath)))
    = sent (writer st) ++ render it /\
    unbounded (writer (fst (writeFileContent env st filePath relativePath))).
Proof.
  intros Hu. unfold writeFileContent. rewrite (WriteString_unbounded _ Hu).
  destruct (Open env filePath) as [e | c rerr cerr] eqn:Hopen.
  - rewrite WriteString_unbounded by (split; reflexivity).
    exists (Unopened relativePath e). cbn [fst writer sent relOf fromFile render].
    repeat split; [exact Hopen | now rewrite append_assoc].
  - unfold ioCopy. rewrite WriteString_unbounded by (split; reflexivity).
    destruct rerr as [e|].
    + exists (Cut relativePath c). cbn [fst writer sent relOf fromFile render].
      repeat split; [eauto | now rewrite append_assoc].
    + rewrite WriteString_unbounded by (split; reflexivity).
      exists (Whole relativePath c). cbn [fst writer sent relOf fromFile render].
      repeat split; [eauto | unfold block; now rewrite !append_assoc].
Qed.

Lemma walkFn_holds env repoPath outputFile entries base p d e st :
  In (p, d) entries ->
  holds env repoPath outputFile entries base st ->
  holds env repoPath outputFile entries base
    (fst (walkFn env repoPath outputFile p (Some d) e st)).
Proof.
  intros Hin Hst. unfold walkFn.
  destruct e as [e|]; [exact Hst | ].
  destruct (filepath.Rel repoPath p) as [rel | x] eqn:Hrel; [ | exact Hst].
  destruct (EvalSymlinks env p) as [ev | x] eqn:Hev; [ | exact Hst].
  destruct (Abs env (filepath.Clean ev)) as [np | x] eqn:Habs; [ | exact Hst].
  destruct (String.eqb rel outputFile) eqn:Hout; [exact Hst | ].
  destruct (IsDir d) eqn:Hd.
  - destruct (isHidden (Name d) && negb (String.eqb (Name d) ".github")); exact Hst.
  - destruct (isHidden (Name d)) eqn:Hh; [exact Hst | ].
    destruct Hst as [Hu [items [Hsent Hall]]].
    destruct (writeFileContent_item env st np rel Hu) as [it [Hr [Hf [Hs Hu1]]]].
    assert (Hgoal : holds env repoPath outputFile entries base
                      (fst (writeFileContent env st np rel))).
    { split; [exact Hu1 | ]. exists (items ++ [it])%list. split.
      - rewrite Hs, Hsent, renderAll_app. cbn [renderAll].
        rewrite !append_assoc. f_equal. f_equal.
        clear. induction (render it); cbn; congruence.
      - apply Forall_app. split; [exact Hall | ]. constructor; [ | constructor].
        exists p, d, np. rewrite Hr.
        repeat split; try assumption.
        + exists ev. now split.
        + now apply String.eqb_neq. }
    destruct (writeFileContent env st np rel) as [st1 [x|]]; exact Hgoal.
Qed.

Lemma WalkDir_holds env repoPath outputFile base st :
  holds env repoPath outputFile [] base st ->
  exists entries,
    holds env repoPath outputFile entries base
      (fst (WalkDir (walkFn env repoPath outputFile) (Lstat env) repoPath st)) /\
    (entries = [] \/ exists t, Lstat env repoPath = Ok t /\
                               entries = treeEntries repoPath t).
Proof.
  intros Hst. unfold WalkDir.
  destruct (Lstat env repoPath) as [t | e] eqn:Hl.
  - exists (treeEntries repoPath t). split; [ | right; eauto].
    assert (H : holds env repoPath outputFile (treeEntries repoPath t) base
                  (fst (walkDir (walkFn env repoPath outputFile) repoPath t st))).
    { apply walkDir_invariant
        with (P := holds env repoPath outputFile (treeEntries repoPath t) base).
      - intros p d e st0 Hin H0. now apply walkFn_holds.
      - destruct Hst as [Hu [items [Hs Hall]]]. split; [exact Hu | ].
        exists items. split; [exact Hs | ].
        destruct items as [|it rest]; [constructor | ].
        inversion Hall as [|? ? [p [d [np [[] _]]]]]. }
    destruct (walkDir (walkFn env repoPath outputFile) repoPath t st) as [st1 [e|]];
      [ | exact H].
    destruct (error_eqb e SkipDir || error_eqb e SkipAll); exact H.
  - exists []. split; [ | now left].
    cbn [walkFn logged fst]. exact Hst.
Qed.

(** ** Runs that succeed *)

Lemma walkDir_succeeds env repoPath outputFile t :
  forall path st,
    readable t = true ->
    (forall p, In p (treePaths path t) ->
               exists rel np, resolves env repoPath p rel np) ->
    snd (walkDir (walkFn env repoPath outputFile) path t st) = None.
Proof.
  induction t as [d dirs rderr IH] using Tree_ind.
  intros path st Hread Hres.
  apply readable_unfold in Hread. destruct Hread as [-> Hread].
  rewrite treePaths_unfold in Hres.
  assert (Hloop : forall l, incl l dirs ->
             (forall p, In p (listPaths path l) -> In p (listPaths path dirs)) ->
             forall s, snd (walkEntries (walkFn env repoPath outputFile) path l s) = None).
  { induction l as [|t1 rest IHl]; intros Hin Hsub s; [reflexivity | ].
    cbn [walkEntries].
    assert (H1 : snd (walkDir (walkFn env repoPath outputFile)
                        (filepath.Join path (Name (entry t1))) t1 s) = None).
    { apply IH; [apply Hin; now left | apply Hread, Hin; now left | ].
      intros p Hp. apply Hres. right. apply Hsub.
      cbn [listPaths]. apply in_or_app. now left. }
    destruct (walkDir (walkFn env repoPath outputFile)
                (filepath.Join path (Name (entry t1))) t1 s) as [s1 r].
    cbn [snd] in H1. subst r. apply IHl.
    - intros x Hx. apply Hin. now right.
    - intros p Hp. apply Hsub. cbn [listPaths]. apply in_or_app. now right. }
  destruct (Hres path (or_introl eq_refl)) as [rel [np Hhere]].
  rewrite walkDir_unfold, (walkFn_resolved _ _ _ Hhere).
  destruct (String.eqb rel outputFile).
  - destruct (negb (IsDir d)); [reflexivity | now apply Hloop, incl_refl].
  - destruct (IsDir d) eqn:Hd.
    + destruct (isHidden (Name d) && negb (String.eqb (Name d) ".github")).
      * unfold skipped. rewrite Hd. reflexivity.
      * cbn [negb]. now apply Hloop, incl_refl.
    + destruct (isHidden (Name d)); [reflexivity | ].
      destruct (writeFileContent env st np rel) as [st1 [x|]]; reflexivity.
Qed.

(** On a sink that takes every byte, a file that opens, reads and
    closes cleanly is written without a record on the diagnostic
    stream. *)
Lemma writeFileContent_quiet env st filePath relativePath c :
  unbounded (writer st) ->
  Open env filePath = Opened c None None ->
  snd (writeFileContent env st filePath relativePath) = None /\
  logger (fst (writeFileContent env st filePath relativePath)) = logger st /\
  unbounded (writer (fst (writeFileContent env st filePath relativePath))).
Proof.
  intros Hu Hopen. unfold writeFileContent, ioCopy.
  rewrite (WriteString_unbounded _ Hu), Hopen.
  rewrite WriteString_unbounded by (split; reflexivity).
  rewrite WriteString_unbounded by (split; reflexivity).
  repeat split.
Qed.

Lemma walkDir_clean env repoPath outputFile t :
  forall path st,
    readable t = true ->
    (forall p, In p (treePaths path t) ->
               exists rel np, resolves env repoPath p rel np) ->
    (forall p d rel np,
        In (p, d) (treeEntries path t) ->
        IsDir d = false -> isHidden (Name d) = false ->
        resolves env repoPath p rel np ->
        exists c, Open env np = Opened c None None) ->
    unbounded (writer st) ->
    snd (walkDir (walkFn env repoPath outputFile) path t st) = None /\
    unbounded (writer (fst (walkDir (walkFn env repoPath outputFile) path t st))) /\
    logger (fst (walkDir (walkFn env repoPath outputFile) path t st)) = logger st.
Proof.
  induction t as [d dirs rderr IH] using Tree_ind.
  intros path st Hread Hres Hopen Hu.
  apply readable_unfold in Hread. destruct Hread as [-> Hread].
  rewrite treePaths_unfold in Hres. rewrite treeEntries_unfold in Hopen.
  assert (Hloop : forall l, incl l dirs ->
             (forall p, In p (listPaths path l) -> In p (listPaths path dirs)) ->
             (forall x, In x (listEntries path l) -> In x (listEntries path dirs)) ->
             forall s, unbounded (writer s) ->
               snd (walkEntries (walkFn env repoPath outputFile) path l s) = None /\
               unbounded (writer (fst (walkEntries (walkFn env repoPath outputFile) path l s))) /\
               logger (fst (walkEntries (walkFn env repoPath outputFile) path l s)) = logger s).
  { induction l as [|t1 rest IHl]; intros Hin Hsub Hsube s Hs;
      [split; [reflexivity | split; [exact Hs | reflexivity]] | ].
    cbn [walkEntries].
    destruct (IH t1 (Hin t1 (or_introl eq_refl))
                (filepath.Join path (Name (entry t1))) s) as [H1 [H2 H3]].
    - apply Hread, Hin. now left.
    - intros p Hp. apply Hres. right. apply Hsub.
      cbn [listPaths]. apply in_or_app. now left.
    - intros p d0 rel np Hp. apply Hopen. right. apply Hsube.
      cbn [listEntries]. apply in_or_app. now left.
    - exact Hs.
    - destruct (walkDir (walkFn env repoPath outputFile) (filepath.Join path (Name (entry t1))) t1 s) as [s1 r].
      cbn [fst snd] in H1, H2, H3. subst r.
      destruct (IHl (fun x Hx => Hin x (or_intror Hx))
                  (fun p Hp => Hsub p (in_or_app _ _ _ (or_intror Hp)))
                  (fun x Hx => Hsube x (in_or_app _ _ _ (or_intror Hx)))
                  s1 H2) as [K1 [K2 K3]].
      split; [exact K1 | split; [exact K2 | now rewrite K3]]. }
  destruct (Hres path (or_introl eq_refl)) as [rel [np Hhere]].
  rewrite walkDir_unfold.
  rewrite (walkFn_resolved _ _ _ Hhere).
  destruct (String.eqb rel outputFile).
  - destruct (negb (IsDir d));
      [split; [reflexivity | split; [exact Hu | reflexivity]] | ].
    apply Hloop; auto using incl_refl.
  - destruct (IsDir d) eqn:Hd.
    + destruct (isHidden (Name d) && negb (String.eqb (Name d) ".github")).
      * unfold skipped. rewrite Hd.
        split; [reflexivity | split; [exact Hu | reflexivity]].
      * cbn [negb]. apply Hloop; auto using incl_refl.
    + destruct (isHidden (Name d)) eqn:Hh;
        [split; [reflexivity | split; [exact Hu | reflexivity]] | ].
      destruct (Hopen path d rel np (or_introl eq_refl) Hd Hh Hhere) as [c Hc].
      destruct (@writeFileContent_quiet env st np rel c Hu Hc) as [Q1 [Q2 Q3]].
      destruct (writeFileContent env st np rel) as [st1 r].
      cbn [fst snd] in Q1, Q2, Q3. subst r.
      split; [reflexivity | split; [exact Q3 | exact Q2]].
Qed.

(** X9: a clean run is silent. Under the conditions of a run that
    succeeds, when moreover every file the walk serializes opens,
    reads and closes without an error and the output file closes
    without one, the diagnostic stream holds what the logger printed
    at the start followed by the one record of success, filtered by
    the level like every Info record; no error is logged. *)
Theorem clean_run_is_silent fl env repoPath t :
  capacity env = None ->
  Abs env (filepath.Clean (repo fl)) = Ok repoPath ->
  Create env (outputName fl env) = None ->
  Lstat env repoPath = Ok t ->
  readable t = true ->
  (forall p, In p (treePaths repoPath t) ->
             exists rel np, resolves env repoPath p rel np) ->
  (forall p d rel np,
      In (p, d) (treeEntries repoPath t) ->
      IsDir d = false -> isHidden (Name d) = false ->
      resolves env repoPath p rel np ->
      exists c, Open env np = Opened c None None) ->
  CloseOut env = None ->
  exitCode (main fl env) = 0%Z /\
  diagnostics (main fl env)
  = printed (Info (logger (startState fl env)) "Successfully combined files"
               [("outputFile", outputName fl env)]) /\
  Forall (fun r => lvl r = LevelInfo) (diagnostics (main fl env)).
Proof.
  intros Hcap Habs Hcreate Hl Hread Hres Hopen Hclose.
  destruct (@walkDir_clean env repoPath (outputName fl env) t repoPath
              (startState fl env) Hread Hres Hopen)
    as [H1 [[_ H2] H3]]; [split; [exact Hcap | reflexivity] | ].
  assert (Hmain : main fl env
                  = mkRun 0 (printed (Info (logger (startState fl env))
                                        "Successfully combined files"
                                        [("outputFile", outputName fl env)]))
                      (stream (main fl env))).
  { rewrite main_unfold. cbn zeta. rewrite Habs, Hcreate, Hclose.
    unfold WalkDir. rewrite Hl.
    destruct (walkDir (walkFn env repoPath (outputName fl env)) repoPath t
                (startState fl env)) as [st1 r].
    cbn [fst snd] in H1, H2, H3. subst r. cbn [fst snd].
    unfold Flush. rewrite H2, H3. reflexivity. }
  rewrite Hmain. cbn [exitCode diagnostics]. repeat split.
  unfold Info, emit, startState. cbn [logger lvl minLevel printed].
  destruct (parseLevel (logLevel fl)); cbn; repeat constructor.
Qed.

(** ** Runs that fail *)

(** X10: a run that fails says why at every log level. When the exit
    code is 1, the last record on the diagnostic stream is an error
    record, whatever [--log-level] is, and its message names the step
    that failed: the root path, the output file, the walk or the
    flush. *)
Theorem failing_run_says_why fl env :
  exitCode (main fl env) = 1%Z ->
  exists before m kv,
    diagnostics (main fl env) = (before ++ [mkRecord LevelError m kv])%list /\
    In m ["Failed to normalize repository path"; "Error creating output file";
          "Error walking the path"; "Error flushing writer"].
Proof.
  rewrite main_unfold. cbn zeta.
  destruct (Abs env (filepath.Clean (repo fl))) as [repoPath | e0].
  2:{ intros _. cbn [diagnostics]. rewrite Error_printed.
      do 3 eexists. split; [reflexivity | cbn; tauto]. }
  destruct (Create env (outputName fl env)) as [e1|].
  { intros _. cbn [diagnostics]. rewrite Error_printed.
    do 3 eexists. split; [reflexivity | cbn; tauto]. }
  destruct (snd _) as [e2|].
  { intros _. cbn [diagnostics]. rewrite Error_printed.
    do 3 eexists. split; [reflexivity | cbn; tauto]. }
  destruct (Flush _) as [e3|]; [ | discriminate].
  intros _. cbn [diagnostics]. rewrite Error_printed.
  do 3 eexists. split; [reflexivity | cbn; tauto].
Qed.

(** ** The further properties on the sample trees *)

Lemma read_failure_keeps_copied_bytes_witness :
  sent (writer (fst (writeFileContent truncated fresh "/r/big.bin" "big.bin")))
  = "" ++ LF ++ LF ++ "# BEGIN FILE: " ++ "big.bin" ++ LF ++ LF ++ "abc" /\
  walkEntries (walkFn truncated "/r" "/tmp/out.txt") "/r"
    [file "big.bin"; file "z.txt"] fresh
  = walkEntries (walkFn truncated "/r" "/tmp/out.txt") "/r" [file "z.txt"]
      (logged (fst (writeFileContent truncated fresh "/r/big.bin" "big.bin"))
         "Error processing file"
         [("file", "/r/big.bin"); ("error", "read /r/big.bin: input/output error")]).
Proof.
  assert (Hres : resolves truncated "/r" (filepath.Join "/r" "big.bin")
                   "big.bin" "/r/big.bin") by resolved.
  assert (Hne : "big.bin" <> "/tmp/out.txt") by discriminate.
  pose proof (@read_failure_keeps_copied_bytes truncated "/r" "/tmp/out.txt" "/r"
                (mkDirEntry "big.bin" false) [] None [file "z.txt"] fresh
                "big.bin" "/r/big.bin" "abc" "read /r/big.bin: input/output error" None
                (fst (WriteString (writer fresh) (beginMarker "big.bin")))
                Hres Hne eq_refl eq_refl eq_refl eq_refl eq_refl)
    as (_ & Hbytes & _ & _ & Hnext).
  split; [exact Hbytes | exact Hnext].
Defined.

Lemma failed_writer_stays_failed_witness :
  werr (writer failed) = Some ErrNoSpace /\
  sent (writer (fst (WalkDir (walkFn scenario "/r" "/tmp/out.txt") (Lstat scenario)
                       "/r" failed))) = "abc" /\
  Flush (writer (fst (WalkDir (walkFn scenario "/r" "/tmp/out.txt") (Lstat scenario)
                        "/r" failed))) = Some ErrNoSpace.
Proof.
  pose proof (@failed_writer_stays_failed scenario "/r" "/tmp/out.txt" failed
                ErrNoSpace eq_refl) as (_ & _ & Hsame & Hflush).
  split; [reflexivity | ]. split; [now rewrite Hsame | exact Hflush].
Defined.

Lemma unreadable_directory_stops_walk_witness :
  walkEntries (walkFn locked "/r" "/tmp/out.txt") "/r"
    [Node (mkDirEntry "private" true) [file "key"]
       (Some "open /r/private: permission denied");
     file "z.txt"] fresh
  = (logged fresh "Error accessing path"
       [("path", "/r/private"); ("error", "open /r/private: permission denied")],
     Some (Errno "open /r/private: permission denied")).
Proof.
  assert (Hres : resolves locked "/r" (filepath.Join "/r" "private")
                   "private" "/r/private") by resolved.
  exact (proj1 (proj2
    (@unreadable_directory_stops_walk locked "/r" "/tmp/out.txt" "/r"
       (mkDirEntry "private" true) [file "key"] "open /r/private: permission denied"
       [file "z.txt"] fresh "private" "/r/private" Hres eq_refl eq_refl))).
Defined.

Lemma missing_root_exits_1_witness :
  exitCode (main (flags "/nowhere" "/tmp/out.txt") missing) = 1%Z /\
  stream (main (flags "/nowhere" "/tmp/out.txt") missing) = "".
Proof.
  pose proof (@missing_root_exits_1 (flags "/nowhere" "/tmp/out.txt") missing
                "/nowhere" "lstat /nowhere: no such file or directory"
                eq_refl eq_refl eq_refl) as (Hexit & Hstream & _).
  split; [exact Hexit | exact Hstream].
Defined.

Lemma clean_run_is_silent_witness :
  exitCode (main (flags "/r" "/tmp/out.txt") scenario) = 0%Z /\
  diagnostics (main (flags "/r" "/tmp/out.txt") scenario)
  = [mkRecord LevelInfo "Starting Colligo"
       [("repoPath", "/r"); ("outputFile", "/tmp/out.txt")];
     mkRecord LevelInfo "Successfully combined files"
       [("outputFile", "/tmp/out.txt")]].
Proof.
  pose proof (@clean_run_is_silent (flags "/r" "/tmp/out.txt") scenario "/r"
                (dir "r" [dir ".github" [file "token.txt"]; file ".secret";
                          file "a.txt"])
                eq_refl eq_refl eq_refl eq_refl eq_refl) as H.
  destruct H as (Hexit & Hdiag & _).
  - intros p Hin. vm_compute in Hin.
    destruct Hin as [<- | [<- | [<- | [<- | [<- | []]]]]]; do 2 eexists; resolved.
  - intros p d rel np Hin Hd Hh [Hrel [ev [Hev Habs]]]. vm_compute in Hin.
    destruct Hin as [Hin | [Hin | [Hin | [Hin | [Hin | []]]]]];
      injection Hin as <- <-; try discriminate Hd; try discriminate Hh;
      vm_compute in Hev; injection Hev as <-;
      vm_compute in Habs; injection Habs as <-;
      eexists; by_running.
  - reflexivity.
  - split; [exact Hexit | exact Hdiag].
Defined.

Lemma failing_run_says_why_witness :
  exists before m kv,
    diagnostics (main (flags "/r" "/tmp/out.txt") brokenLink)
    = (before ++ [mkRecord LevelError m kv])%list /\
    In m ["Failed to normalize repository path"; "Error creating output file";
          "Error walking the path"; "Error flushing writer"].
Proof.
  apply failing_run_says_why. by_running.
Defined.

(** ** The log level *)

Lemma emit_levelled L lg r :
  lvl r = LevelInfo \/ lvl r = LevelError ->
  levelled L lg -> levelled L (emit lg r).
Proof.
  intros Hr [Hmin Hall]. unfold emit. rewrite Hmin.
  destruct (levelNum L <=? levelNum (lvl r))%Z eqn:Hle; [ | now split].
  split; [reflexivity | ]. cbn [printed].
  apply Forall_app. split; [exact Hall | ].
  constructor; [ | constructor]. split; [now apply Z.leb_le | exact Hr].
Qed.

Lemma Error_levelled L lg m kv : levelled L lg -> levelled L (Error lg m kv).
Proof. apply emit_levelled. now right. Qed.

Lemma Info_levelled L lg m kv : levelled L lg -> levelled L (Info lg m kv).
Proof. apply emit_levelled. now left. Qed.

Lemma closeFile_levelled L filePath cerr lg :
  levelled L lg -> levelled L (closeFile filePath cerr lg).
Proof. destruct cerr; [apply Error_levelled | trivial]. Qed.

Lemma writeFileContent_levelled L env st filePath relativePath :
  levelled L (logger st) ->
  levelled L (logger (fst (writeFileContent env st filePath relativePath))).
Proof.
  intros H. unfold writeFileContent.
  destruct (WriteString (writer st) (beginMarker relativePath)) as [w1 [e|]];
    [now apply Error_levelled | ].
  destruct (Open env filePath) as [e | c rerr cerr].
  - destruct (WriteString w1 (errorLine relativePath e)) as [w2 [we|]];
      cbn [fst logger]; auto using Error_levelled.
  - destruct (ioCopy w1 c rerr) as [w2 [e|]]; cbn [fst logger].
    + auto using Error_levelled, closeFile_levelled.
    + destruct (WriteString w2 (endMarker relativePath)) as [w3 [e|]];
        cbn [fst logger]; auto using Error_levelled, closeFile_levelled.
Qed.

Lemma walkFn_levelled L env repoPath outputFile p d e st :
  levelled L (logger st) ->
  levelled L (logger (fst (walkFn env repoPath outputFile p d e st))).
Proof.
  intros H. unfold walkFn.
  destruct e as [e|]; [now apply Error_levelled | ].
  destruct (filepath.Rel repoPath p) as [rel | x]; [ | now apply Error_levelled].
  destruct (EvalSymlinks env p) as [ev | x]; [ | now apply Error_levelled].
  destruct (Abs env (filepath.Clean ev)) as [np | x]; [ | now apply Error_levelled].
  destruct (String.eqb rel outputFile); [exact H | ].
  destruct d as [d|]; [ | exact H].
  destruct (IsDir d).
  - destruct (isHidden (Name d) && negb (String.eqb (Name d) ".github")); exact H.
  - destruct (isHidden (Name d)); [exact H | ].
    pose proof (writeFileContent_levelled env st np rel H) as H1.
    destruct (writeFileContent env st np rel) as [st1 [x|]]; cbn [fst] in *;
      [now apply Error_levelled | exact H1].
Qed.

(** X11: the log level is respected throughout a run. Every record on
    the diagnostic stream is an Info or an Error record and is at or
    above the level that [--log-level] selects; so with [warn] or
    [error] the stream holds error records only, and error records
    are printed at every level. *)
Theorem diagnostics_respect_level fl env :
  Forall (fun r =>
            (levelNum (parseLevel (logLevel fl)) <= levelNum (lvl r))%Z /\
            (lvl r = LevelInfo \/ lvl r = LevelError))
         (diagnostics (main fl env)) /\
  (parseLevel (logLevel fl) = LevelWarn \/ parseLevel (logLevel fl) = LevelError ->
   Forall (fun r => lvl r = LevelError) (diagnostics (main fl env))) /\
  (forall lg m kv,
      printed (Error lg m kv) = (printed lg ++ [mkRecord LevelError m kv])%list).
Proof.
  set (L := parseLevel (logLevel fl)).
  assert (Hstart : levelled L (logger (startState fl env))).
  { unfold startState. cbn [logger]. apply Info_levelled.
    split; [reflexivity | constructor]. }
  assert (Hall : levelled L (mkLogger L (diagnostics (main fl env)))).
  { assert (Hwrap : forall lg, levelled L lg -> levelled L (mkLogger L (printed lg))).
    { intros lg [_ H]. split; [reflexivity | exact H]. }
    rewrite main_unfold. cbn zeta.
    destruct (Abs env (filepath.Clean (repo fl))) as [repoPath | e0];
      [ | now apply Hwrap, Error_levelled].
    destruct (Create env (outputName fl env)) as [e1|];
      [now apply Hwrap, Error_levelled | ].
    assert (Hwalk : levelled L
              (logger (fst (WalkDir (walkFn env repoPath (outputName fl env))
                              (Lstat env) repoPath (startState fl env))))).
    { unfold WalkDir.
      assert (H : levelled L
                (logger (fst match Lstat env repoPath with
                             | Ok t => walkDir (walkFn env repoPath (outputName fl env))
                                         repoPath t (startState fl env)
                             | Err e => walkFn env repoPath (outputName fl env)
                                          repoPath None (Some (Errno e))
                                          (startState fl env)
                             end))).
      { destruct (Lstat env repoPath) as [t | e].
        - apply walkDir_invariant with (P := fun s => levelled L (logger s));
            [ | exact Hstart].
          intros p d e s _ Hs. now apply walkFn_levelled.
        - now apply walkFn_levelled. }
      destruct (match Lstat env repoPath with
                | Ok t => walkDir (walkFn env repoPath (outputName fl env))
                            repoPath t (startState fl env)
                | Err e => walkFn env repoPath (outputName fl env)
                             repoPath None (Some (Errno e)) (startState fl env)
                end) as [st1 [e|]]; [ | exact H].
      destruct (error_eqb e SkipDir || error_eqb e SkipAll); exact H. }
    destruct (snd _); [now apply Hwrap, Error_levelled | ].
    destruct (Flush _); [now apply Hwrap, Error_levelled | ].
    cbn [diagnostics]. apply Hwrap.
    destruct (CloseOut env); auto using Error_levelled, Info_levelled. }
  destruct Hall as [_ Hall]. cbn [printed] in Hall.
  split; [exact Hall | ]. split.
  - intros HL. eapply Forall_impl; [ | exact Hall].
    intros r [Hle [Hi | He]]; [ | exact He].
    exfalso. rewrite Hi in Hle. fold L in HL. destruct HL as [HL | HL];
      rewrite HL in Hle; cbn in Hle; lia.
  - intros lg m kv. apply Error_printed.
Qed.

Lemma diagnostics_respect_level_witness :
  parseLevel "WARN" = LevelWarn /\
  Forall (fun r => lvl r = LevelError)
    (diagnostics (main (mkFlags "/r" "/tmp/out.txt" "WARN") vanished)).
Proof.
  split; [reflexivity | ].
  exact (proj1 (proj2 (diagnostics_respect_level (mkFlags "/r" "/tmp/out.txt" "WARN")
                         vanished)) (or_introl eq_refl)).
Defined.

(** ** An absolute output name *)

Lemma IsAbs_cons c z :
  filepath.IsAbs (String c z) = if ascii_dec "/"%char c then true else false.
Proof.
  unfold filepath.IsAbs. rewrite prefix_cons.
  destruct (ascii_dec "/"%char c); [now destruct z | reflexivity].
Qed.

Lemma split_not_abs s :
  Forall (fun e => filepath.IsAbs e = false) (filepath.split s).
Proof.
  induction s as [|c s IH]; cbn [filepath.split]; [repeat constructor | ].
  destruct (Ascii.eqb c "/"%char) eqn:Hc; [constructor; [reflexivity | exact IH] | ].
  assert (Hhead : forall h, filepath.IsAbs (String c h) = false).
  { intros h. rewrite IsAbs_cons. destruct (ascii_dec "/"%char c) as [<- | ];
      [discriminate Hc | reflexivity]. }
  destruct (filepath.split s) as [|h t]; constructor; auto.
  now inversion IH.
Qed.

Lemma elems_plain p :
  Forall (fun e => e <> "" /\ filepath.IsAbs e = false) (filepath.elems p).
Proof.
  unfold filepath.elems. pose proof (split_not_abs p) as H.
  induction H as [|e l He Hl IH]; cbn [filter]; [constructor | ].
  destruct (String.eqb e "") eqn:E; cbn [negb]; [exact IH | ].
  constructor; [ | exact IH]. split; [now apply String.eqb_neq | exact He].
Qed.

Lemma dropCommon_keeps (P : string -> Prop) bs :
  forall ts, Forall P bs -> Forall P ts ->
             Forall P (fst (filepath.dropCommon bs ts)) /\
             Forall P (snd (filepath.dropCommon bs ts)).
Proof.
  induction bs as [|b bs IH]; intros ts Hb Ht; [now split | ].
  destruct ts as [|t ts]; [now split | ].
  cbn [filepath.dropCommon]. destruct (String.eqb b t); [ | now split].
  inversion Hb; inversion Ht; subst. now apply IH.
Qed.

Lemma concat_not_abs l :
  Forall (fun e => e <> "" /\ filepath.IsAbs e = false) l ->
  filepath.IsAbs (String.concat "/" l) = false.
Proof.
  intros H. destruct H as [|e rest [Hne Habs] Hrest]; [reflexivity | ].
  destruct e as [|c e]; [now elim Hne | ].
  rewrite IsAbs_cons in Habs.
  destruct rest; cbn [String.concat String.append]; now rewrite IsAbs_cons.
Qed.

(** [Rel] never returns an absolute path. *)
Lemma Rel_not_abs base targ rel :
  filepath.Rel base targ = Ok rel -> filepath.IsAbs rel = false.
Proof.
  unfold filepath.Rel.
  destruct (String.eqb (filepath.Clean targ) (filepath.Clean base));
    [intros H; injection H as <-; reflexivity | ].
  cbv zeta.
  set (b' := if String.eqb (filepath.Clean base) "." then "" else filepath.Clean base).
  destruct (negb _); [discriminate | ].
  pose proof (dropCommon_keeps (elems_plain b') (elems_plain (filepath.Clean targ)))
    as [Hb Ht].
  destruct (filepath.dropCommon (filepath.elems b')
              (filepath.elems (filepath.Clean targ))) as [bs ts].
  cbn [fst snd] in Hb, Ht.
  destruct bs as [|b0 bs].
  - intros H; injection H as <-. now apply concat_not_abs.
  - destruct (String.eqb b0 ".."); [discriminate | ].
    intros H; injection H as <-.
    destruct (map (fun _ : string => "..") bs ++ ts)%list; reflexivity.
Qed.

(** X12: an absolute output name excludes nothing. The relative path
    [Rel] computes is never absolute, so when [--output] is an
    absolute path the output test is false for every entry, the
    artifact's own entry included when it lies in the tree; the
    callback and the walk then do the same whichever absolute name
    is given. *)
Theorem absolute_output_excludes_nothing env repoPath outputFile :
  filepath.IsAbs outputFile = true ->
  (forall p rel, filepath.Rel repoPath p = Ok rel -> String.eqb rel outputFile = false) /\
  (forall other, filepath.IsAbs other = true ->
     (forall p d e st,
         walkFn env repoPath outputFile p d e st = walkFn env repoPath other p d e st) /\
     (forall t path st,
         walkDir (walkFn env repoPath outputFile) path t st
         = walkDir (walkFn env repoPath other) path t st)).
Proof.
  intros Habs.
  assert (Hne : forall out, filepath.IsAbs out = true ->
                  forall p rel, filepath.Rel repoPath p = Ok rel ->
                                String.eqb rel out = false).
  { intros out Hout p rel Hrel. apply String.eqb_neq. intros ->.
    apply Rel_not_abs in Hrel. congruence. }
  split; [now apply Hne | ].
  intros other Hother.
  assert (Hfn : forall p d e st,
             walkFn env repoPath outputFile p d e st
             = walkFn env repoPath other p d e st).
  { intros p d e st. unfold walkFn.
    destruct e as [e|]; [reflexivity | ].
    destruct (filepath.Rel repoPath p) as [rel | x] eqn:Hrel; [ | reflexivity].
    now rewrite (Hne outputFile Habs p rel Hrel), (Hne other Hother p rel Hrel). }
  split; [exact Hfn | ].
  intros t path st.
  destruct (@walkDir_rel State State (walkFn env repoPath outputFile)
              (walkFn env repoPath other) eq t path st st) as [H1 H2].
  - intros p _ d e s1 s2 <-. rewrite Hfn. now split.
  - reflexivity.
  - destruct (walkDir (walkFn env repoPath outputFile) path t st),
             (walkDir (walkFn env repoPath other) path t st).
    cbn [fst snd] in H1, H2. now subst.
Qed.

Lemma absolute_output_excludes_nothing_witness :
  (forall p rel, filepath.Rel "/r" p = Ok rel -> String.eqb rel "/r/out.txt" = false) /\
  stream (main (flags "/r" "/r/out.txt") inTree)
  = block "a.txt" "hello" ++ block "out.txt" "".
Proof.
  split; [ | by_running].
  exact (proj1 (@absolute_output_excludes_nothing inTree "/r" "/r/out.txt" eq_refl)).
Defined.

(** * Hidden names, the output test and the exit code *)



(** ** Hidden names *)




(** ** The output test *)

(** C10, as the code has it: the output test compares the entry's
    path relative to the root with the configured output name as
    strings. An entry on which the callback reaches the test is
    skipped by it, without a trace, when the two strings are equal,
    and is let through to the steps on hidden names when they differ.
    So when the configured string differs from the relative path of
    the artifact, the test does not skip the artifact's entry: when
    the walk reaches that entry and it is a regular file with a name
    that is not hidden, the callback hands it to the serializer, and
    the walk of the entry leaves its begin marker in a healthy
    sink. *)
Theorem output_test_is_string_equality
  env repoPath outputFile path d st relativePath normalizedPath :
  resolves env repoPath path relativePath normalizedPath ->
  let fn := walkFn env repoPath outputFile in
  (relativePath = outputFile -> fn path (Some d) None st = (st, None)) /\
  (relativePath <> outputFile ->
   fn path (Some d) None st =
     (if IsDir d then
        if isHidden (Name d) && negb (String.eqb (Name d) ".github")
        then (st, Some SkipDir) else (st, None)
      else if isHidden (Name d) then (st, None)
      else
        let '(st1, err) := writeFileContent env st normalizedPath relativePath in
        match err with
        | Some e =>
            (logged st1 "Error processing file"
               [("file", normalizedPath); ("error", e)], None)
        | None => (st1, None)
        end)) /\
  (relativePath <> outputFile -> IsDir d = false -> isHidden (Name d) = false ->
   writer (fst (fn path (Some d) None st))
   = writer (fst (writeFileContent env st normalizedPath relativePath)) /\
   forall dirs rderr,
     walkDir fn path (Node d dirs rderr) st = fn path (Some d) None st /\
     (unbounded (writer st) ->
      exists tail,
        sent (writer (fst (walkDir fn path (Node d dirs rderr) st)))
        = sent (writer st) ++ beginMarker relativePath ++ tail)).
Proof.
  intros Hres fn. split; [ | split].
  - intros ->. unfold fn. rewrite (walkFn_resolved _ _ _ Hres).
    now rewrite String.eqb_refl.
  - intros Hne. unfold fn. rewrite (walkFn_resolved _ _ _ Hres).
    apply String.eqb_neq in Hne. now rewrite Hne.
  - intros Hne Hd Hh.
    destruct (walkFn_serialized d st Hres Hne Hd Hh) as [_ Hw].
    fold fn in Hw. split; [exact Hw | ].
    intros dirs rderr. split; [now apply walkDir_file | ].
    intros Hu. rewrite walkDir_file by exact Hd.
    rewrite Hw. now apply writeFileContent_begins.
Qed.

(** The claim of C10 fails in three ways, the configured string being
    different from the relative path of the artifact in each. Started
    in [/r/sub] with [--repo /r --output x.txt], the artifact is
    [/r/sub/x.txt]; an entry is skipped by the test all the same, the
    file [/r/x.txt], while the artifact is written into itself. With
    [--output /r/.out] the artifact is a hidden file, and is not
    written into itself. With [--output /r/.cache/out.txt] the
    artifact has a plain name in a hidden directory; the walk never
    reaches it, and it is not written into itself. *)
Lemma output_test_counterexamples :
  (filepath.Join "/r/sub" "x.txt" = "/r/sub/x.txt" /\
   filepath.Rel "/r" "/r/sub/x.txt" = Ok "sub/x.txt" /\
   "sub/x.txt" <> outputName (flags "/r" "x.txt") elsewhere /\
   walkFn elsewhere "/r" "x.txt" "/r/x.txt" (Some (mkDirEntry "x.txt" false)) None fresh
   = (fresh, None) /\
   Open elsewhere "/r/x.txt" = Opened "data" None None /\
   exitCode (main (flags "/r" "x.txt") elsewhere) = 0%Z /\
   stream (main (flags "/r" "x.txt") elsewhere) = block "sub/x.txt" "") /\
  (filepath.Rel "/r" "/r/.out" = Ok ".out" /\
   ".out" <> outputName (flags "/r" "/r/.out") hiddenOut /\
   exitCode (main (flags "/r" "/r/.out") hiddenOut) = 0%Z /\
   stream (main (flags "/r" "/r/.out") hiddenOut) = block "a.txt" "hello") /\
  (filepath.Rel "/r" "/r/.cache/out.txt" = Ok ".cache/out.txt" /\
   ".cache/out.txt" <> outputName (flags "/r" "/r/.cache/out.txt") cacheOut /\
   isHidden "out.txt" = false /\
   exitCode (main (flags "/r" "/r/.cache/out.txt") cacheOut) = 0%Z /\
   stream (main (flags "/r" "/r/.cache/out.txt") cacheOut) = block "a.txt" "hello").
Proof.
  repeat split; try by_running; vm_compute; discriminate.
Qed.

Lemma output_test_is_string_equality_witness :
  walkFn elsewhere "/r" "x.txt" "/r/x.txt" (Some (mkDirEntry "x.txt" false)) None fresh
  = (fresh, None) /\
  exists tail,
    sent (writer (fst (walkDir (walkFn elsewhere "/r" "x.txt") "/r/sub/x.txt"
                         (file "x.txt") fresh)))
    = sent (writer fresh) ++ beginMarker "sub/x.txt" ++ tail.
Proof.
  assert (Hout : resolves elsewhere "/r" "/r/x.txt" "x.txt" "/r/x.txt") by resolved.
  assert (Hres : resolves elsewhere "/r" "/r/sub/x.txt" "sub/x.txt" "/r/sub/x.txt")
    by resolved.
  assert (Hne : "sub/x.txt" <> "x.txt") by discriminate.
  split.
  - exact (proj1 (@output_test_is_string_equality elsewhere "/r" "x.txt" "/r/x.txt"
                    (mkDirEntry "x.txt" false) fresh "x.txt" "/r/x.txt" Hout)
             eq_refl).
  - exact (proj2 (proj2 (proj2 (proj2
             (@output_test_is_string_equality elsewhere "/r" "x.txt"
                "/r/sub/x.txt" (mkDirEntry "x.txt" false) fresh
                "sub/x.txt" "/r/sub/x.txt" Hres))
             Hne eq_refl eq_refl) [] None) (conj eq_refl eq_refl)).
Defined.

(** ** The exit code *)

(** C5, as the code has it: a run exits with code 0 or 1, and with
    code 1 exactly when the root path cannot be resolved, or the
    output file cannot be created, or the walk driver returns an
    error, or the final flush fails. An error of the serializer on one
    file is logged by the callback, with an error record that every
    level prints, and the callback returns nil; whether the files of
    the tree can be opened and read never changes the error the walk
    driver returns, whatever the sink; and two runs that differ only
    in what opening and reading the files give have different exit
    codes only when both walks returned nil and the final flush of one
    of them failed. *)
Theorem exit_codes fl env :
  let outputFile := outputName fl env in
  let walk repoPath :=
    WalkDir (walkFn env repoPath outputFile) (Lstat env) repoPath (startState fl env) in
  (exitCode (main fl env) = 0%Z \/ exitCode (main fl env) = 1%Z) /\
  (exitCode (main fl env) = 1%Z <->
     (exists e, Abs env (filepath.Clean (repo fl)) = Err e) \/
     (exists repoPath,
         Abs env (filepath.Clean (repo fl)) = Ok repoPath /\
         ((exists e, Create env outputFile = Some e) \/
          (Create env outputFile = None /\
           ((exists e, snd (walk repoPath) = Some e) \/
            (snd (walk repoPath) = None /\
             exists e, Flush (writer (fst (walk repoPath))) = Some e)))))) /\
  (forall repoPath path d st relativePath normalizedPath e,
      resolves env repoPath path relativePath normalizedPath ->
      relativePath <> outputFile -> IsDir d = false -> isHidden (Name d) = false ->
      snd (writeFileContent env st normalizedPath relativePath) = Some e ->
      let st1 := fst (writeFileContent env st normalizedPath relativePath) in
      let record := mkRecord LevelError "Error processing file"
                      [("file", normalizedPath); ("error", e)] in
      snd (walkFn env repoPath outputFile path (Some d) None st) = None /\
      writer (fst (walkFn env repoPath outputFile path (Some d) None st)) = writer st1 /\
      printed (logger (fst (walkFn env repoPath outputFile path (Some d) None st)))
      = (printed (logger st1) ++ [record])%list) /\
  (forall open repoPath st1 st2,
      snd (WalkDir (walkFn (withOpen env open) repoPath outputFile) (Lstat env)
             repoPath st1)
      = snd (WalkDir (walkFn env repoPath outputFile) (Lstat env) repoPath st2)) /\
  (forall open,
      exitCode (main fl (withOpen env open)) <> exitCode (main fl env) ->
      exists repoPath,
        Abs env (filepath.Clean (repo fl)) = Ok repoPath /\
        Create env outputFile = None /\
        snd (walk repoPath) = None /\
        (Flush (writer (fst (walk repoPath))) <> None \/
         Flush (writer (fst (WalkDir (walkFn (withOpen env open) repoPath outputFile)
                               (Lstat env) repoPath (startState fl env)))) <> None)).
Proof.
  intros outputFile walk. subst outputFile walk. cbn beta.
  assert (Hsame : forall open repoPath st1 st2,
             snd (WalkDir (walkFn (withOpen env open) repoPath (outputName fl env))
                    (Lstat env) repoPath st1)
             = snd (WalkDir (walkFn env repoPath (outputName fl env)) (Lstat env)
                      repoPath st2)).
  { intros open repoPath st1 st2.
    apply (@WalkDir_rel _ _
             (walkFn (withOpen env open) repoPath (outputName fl env))
             (walkFn env repoPath (outputName fl env))
             (fun _ _ => True) (Lstat env) (Lstat env) repoPath st1 st2).
    + reflexivity.
    + intros t _ p _. apply walkFn_error_only.
    + intros e a b _. now apply walkFn_error_only.
    + exact I. }
  split; [ | split; [ | split; [ | split; [exact Hsame | ]]]].
  - rewrite main_unfold. cbn zeta.
    destruct (Abs env (filepath.Clean (repo fl))); [ | now right].
    destruct (Create env (outputName fl env)); [now right | ].
    destruct (snd _); [now right | ].
    destruct (Flush _); [now right | now left].
  - rewrite main_unfold. cbn zeta.
    destruct (Abs env (filepath.Clean (repo fl))) as [repoPath | e0].
    2:{ split; [intros _; left; now exists e0 | reflexivity]. }
    destruct (Create env (outputName fl env)) as [e1|].
    { split; [ | reflexivity]. intros _. right. exists repoPath.
      split; [reflexivity | ]. left. now exists e1. }
    destruct (snd (WalkDir (walkFn env repoPath (outputName fl env)) (Lstat env)
                     repoPath (startState fl env))) as [e2|] eqn:Hwalk.
    { split; [ | reflexivity]. intros _. right. exists repoPath.
      split; [reflexivity | ]. right. split; [reflexivity | ]. left.
      exists e2. exact Hwalk. }
    destruct (Flush (writer (fst (WalkDir (walkFn env repoPath (outputName fl env))
                                    (Lstat env) repoPath (startState fl env)))))
      as [e3|] eqn:Hflush.
    { split; [ | reflexivity]. intros _. right. exists repoPath.
      split; [reflexivity | ]. right. split; [reflexivity | ]. right.
      split; [exact Hwalk | ]. exists e3. exact Hflush. }
    cbn [exitCode]. split; [discriminate | ].
    intros [[e He] | [rp [Hrp [[e He] | [_ [[e He] | [_ [e He]]]]]]]];
      try discriminate; injection Hrp as <-; congruence.
  - intros repoPath path d st relativePath normalizedPath e Hres Hne Hd Hh Herr.
    cbn zeta. rewrite (walkFn_resolved _ _ _ Hres).
    apply String.eqb_neq in Hne. rewrite Hne, Hd, Hh.
    destruct (writeFileContent env st normalizedPath relativePath) as [st1 r].
    cbn [fst snd] in *. subst r. cbn [fst snd logged writer logger].
    repeat split. apply Error_printed.
  - intros open. rewrite !main_unfold. cbn zeta.
    rewrite (@Abs_same_cwd (withOpen env open) env _ eq_refl).
    destruct (Abs env (filepath.Clean (repo fl))) as [repoPath | e0];
      [ | intros H; now elim H].
    change (Create (withOpen env open) (outputName fl (withOpen env open)))
      with (Create env (outputName fl env)).
    destruct (Create env (outputName fl env)) as [e1|]; [intros H; now elim H | ].
    change (Lstat (withOpen env open)) with (Lstat env).
    change (outputName fl (withOpen env open)) with (outputName fl env).
    change (startState fl (withOpen env open)) with (startState fl env).
    rewrite (Hsame open repoPath (startState fl env) (startState fl env)).
    destruct (snd (WalkDir (walkFn env repoPath (outputName fl env)) (Lstat env)
                     repoPath (startState fl env))) as [e2|] eqn:Hwalk;
      [intros H; now elim H | ].
    intros Hdiff. exists repoPath. do 2 (split; [reflexivity | ]).
    split; [exact Hwalk | ].
    destruct (Flush (writer (fst (WalkDir (walkFn env repoPath (outputName fl env))
                                    (Lstat env) repoPath (startState fl env)))));
      [left; discriminate | ].
    destruct (Flush (writer (fst (WalkDir
                (walkFn (withOpen env open) repoPath (outputName fl env))
                (Lstat env) repoPath (startState fl env)))));
      [right; discriminate | now elim Hdiff].
Qed.

(** The claim of C5 fails on a disk with room for 120 bytes. When
    [gone.txt] cannot be opened the run writes the line of the error,
    which is longer than the file, the disk is full at the final
    flush and the run exits with code 1; when the same file opens,
    the run exits with code 0. Both walks return nil. *)
Lemma open_error_changes_exit_code :
  Open tight "/r/gone.txt" = OpenFail "open /r/gone.txt: no such file or directory" /\
  Open tightPresent "/r/gone.txt" = Opened "here" None None /\
  snd (WalkDir (walkFn tight "/r" "/tmp/out.txt") (Lstat tight) "/r"
         (startState (flags "/r" "/tmp/out.txt") tight)) = None /\
  exitCode (main (flags "/r" "/tmp/out.txt") tight) = 1%Z /\
  exitCode (main (flags "/r" "/tmp/out.txt") tightPresent) = 0%Z.
Proof. repeat split; by_running. Qed.

Lemma exit_codes_witness :
  snd (writeFileContent vanished fresh "/r/gone.txt" "gone.txt")
  = Some "open /r/gone.txt: no such file or directory" /\
  snd (walkFn vanished "/r" "/tmp/out.txt" "/r/gone.txt"
         (Some (mkDirEntry "gone.txt" false)) None fresh) = None /\
  printed (logger (fst (walkFn vanished "/r" "/tmp/out.txt" "/r/gone.txt"
                          (Some (mkDirEntry "gone.txt" false)) None fresh)))
  = [mkRecord LevelError "Error opening file"
       [("file", "/r/gone.txt");
        ("error", "open /r/gone.txt: no such file or directory")];
     mkRecord LevelError "Error processing file"
       [("file", "/r/gone.txt");
        ("error", "open /r/gone.txt: no such file or directory")]] /\
  exitCode (main (flags "/r" "/tmp/out.txt") vanished) = 0%Z.
Proof.
  assert (Hres : resolves vanished "/r" "/r/gone.txt" "gone.txt" "/r/gone.txt")
    by resolved.
  assert (Hne : "gone.txt" <> outputName (flags "/r" "/tmp/out.txt") vanished)
    by (vm_compute; discriminate).
  pose proof (proj1 (proj2 (proj2 (exit_codes (flags "/r" "/tmp/out.txt") vanished)))
                "/r" "/r/gone.txt" (mkDirEntry "gone.txt" false) fresh
                "gone.txt" "/r/gone.txt" "open /r/gone.txt: no such file or directory"
                Hres Hne eq_refl eq_refl eq_refl) as (Hnil & _ & Hlog).
  split; [reflexivity | ]. split; [exact Hnil | ]. split; [exact Hlog | by_running].
Defined.

(** * The artifact of a run that succeeds *)

Lemma listSelected_unfold repoPath outputFile path d dirs rderr :
  selected repoPath outputFile path (Node d dirs rderr) =
  match filepath.Rel repoPath path with
  | Err _ => []
  | Ok rel =>
      if String.eqb rel outputFile
      then (if IsDir d then listSelected repoPath outputFile path dirs else [])
      else if IsDir d then
             if isHidden (Name d) && negb (String.eqb (Name d) ".github")
             then [] else listSelected repoPath outputFile path dirs
           else if isHidden (Name d) then [] else [path]
  end.
Proof.
  cbn [selected].
  replace ((fix each (l : list Tree) : list string :=
              match l with
              | [] => []
              | t1 :: rest =>
                  (selected repoPath outputFile
                     (filepath.Join path (Name (entry t1))) t1 ++ each rest)%list
              end) dirs)
    with (listSelected repoPath outputFile path dirs); [reflexivity | ].
  induction dirs as [|t1 rest IHl]; [reflexivity | ].
  cbn [listSelected]. now rewrite IHl.
Qed.

(** On a sink that takes every byte the serializer appends the item of
    the file. *)
Lemma writeFileContent_renders env st filePath relativePath :
  unbounded (writer st) ->
  sent (writer (fst (writeFileContent env st filePath relativePath)))
  = sent (writer st) ++ render (itemOf relativePath (Open env filePath)) /\
  unbounded (writer (fst (writeFileContent env st filePath relativePath))).
Proof.
  intros Hu. unfold writeFileContent. rewrite (WriteString_unbounded _ Hu).
  destruct (Open env filePath) as [e | c rerr cerr].
  - rewrite WriteString_unbounded by (split; reflexivity).
    cbn [fst writer sent itemOf render]. split; [now rewrite append_assoc | ].
    split; reflexivity.
  - unfold ioCopy. rewrite WriteString_unbounded by (split; reflexivity).
    destruct rerr as [e|].
    + cbn [fst writer sent itemOf render]. split; [now rewrite append_assoc | ].
      split; reflexivity.
    + rewrite WriteString_unbounded by (split; reflexivity).
      cbn [fst writer sent itemOf render]. split; [ | split; reflexivity].
      unfold block. now rewrite !append_assoc.
Qed.

Lemma wrote_nothing env repoPath st st' :
  unbounded (writer st') -> writer st' = writer st -> wrote env repoPath [] st st'.
Proof.
  intros Hu Hw. split; [exact Hu | ]. exists []. split; [constructor | ].
  rewrite Hw. cbn [renderAll]. clear. induction (sent (writer st)); cbn; congruence.
Qed.

Lemma wrote_app env repoPath ps1 ps2 a b c :
  wrote env repoPath ps1 a b -> wrote env repoPath ps2 b c ->
  wrote env repoPath (ps1 ++ ps2) a c.
Proof.
  intros [_ [i1 [F1 S1]]] [Hu [i2 [F2 S2]]]. split; [exact Hu | ].
  exists (i1 ++ i2)%list. split; [now apply Forall2_app | ].
  now rewrite S2, S1, renderAll_app, append_assoc.
Qed.

Lemma wrote_writer env repoPath ps st st' st'' :
  writer st'' = writer st' -> wrote env repoPath ps st st' ->
  wrote env repoPath ps st st''.
Proof. intros Hw [Hu H]. split; rewrite Hw; assumption. Qed.

Lemma walkFn_on_error env repoPath outputFile p d e st :
  walkFn env repoPath outputFile p d (Some e) st
  = (logged st "Error accessing path" [("path", p); ("error", errText e)], Some e).
Proof. reflexivity. Qed.

(** A first call of the callback either passes the path steps or
    returns the error of the step that failed. *)
Lemma walkFn_resolves_or_fails env repoPath outputFile path d st :
  (exists rel np, resolves env repoPath path rel np) \/
  (exists text,
      snd (walkFn env repoPath outputFile path (Some d) None st) = Some (Errno text)).
Proof.
  unfold walkFn, resolves.
  destruct (filepath.Rel repoPath path) as [rel | x]; [ | right; now exists x].
  destruct (EvalSymlinks env path) as [ev | x]; [ | right; now exists x].
  destruct (Abs env (filepath.Clean ev)) as [np | x] eqn:Habs; [ | right; now exists x].
  left. exists rel, np. split; [reflexivity | ]. exists ev. now split.
Qed.

Lemma itemAt_resolved env repoPath path rel np :
  resolves env repoPath path rel np ->
  itemAt env repoPath path = Some (itemOf rel (Open env np)).
Proof.
  intros [Hrel [ev [Hev Habs]]]. unfold itemAt. now rewrite Hrel, Hev, Habs.
Qed.

Lemma walkDir_wrote env repoPath outputFile t :
  forall path st,
    unbounded (writer st) ->
    snd (walkDir (walkFn env repoPath outputFile) path t st) = None ->
    wrote env repoPath (selected repoPath outputFile path t) st
      (fst (walkDir (walkFn env repoPath outputFile) path t st)).
Proof.
  induction t as [d dirs rderr IH] using Tree_ind.
  intros path st Hu.
  assert (Hloop : forall l, incl l dirs -> forall s,
             unbounded (writer s) ->
             snd (walkEntries (walkFn env repoPath outputFile) path l s) = None ->
             wrote env repoPath (listSelected repoPath outputFile path l) s
               (fst (walkEntries (walkFn env repoPath outputFile) path l s))).
  { induction l as [|t1 rest IHl]; intros Hin s Hs.
    - intros _. now apply wrote_nothing.
    - cbn [walkEntries listSelected].
      pose proof (IH t1 (Hin t1 (or_introl eq_refl))
                    (filepath.Join path (Name (entry t1))) s Hs) as H1.
      pose proof (walkDir_error_kind env repoPath outputFile t1
                    (filepath.Join path (Name (entry t1))) s) as Hk.
      destruct (walkDir (walkFn env repoPath outputFile)
                  (filepath.Join path (Name (entry t1))) t1 s) as [s1 [e|]].
      + destruct (Hk e eq_refl) as [text ->]. discriminate.
      + cbn [fst snd] in H1. specialize (H1 eq_refl). intros Hrest.
        eapply wrote_app; [exact H1 | ].
        apply IHl; [intros x Hx; apply Hin; now right | apply H1 | exact Hrest]. }
  assert (Hread : forall s, unbounded (writer s) ->
            snd (match rderr with
                 | Some re =>
                     let '(st2, err2) :=
                       walkFn env repoPath outputFile path (Some d)
                         (Some (Errno re)) s in
                     match err2 with
                     | Some e => (st2, skipped d e)
                     | None => walkEntries (walkFn env repoPath outputFile) path dirs st2
                     end
                 | None => walkEntries (walkFn env repoPath outputFile) path dirs s
                 end) = None ->
            wrote env repoPath (listSelected repoPath outputFile path dirs) s
              (fst (match rderr with
                    | Some re =>
                        let '(st2, err2) :=
                          walkFn env repoPath outputFile path (Some d)
                            (Some (Errno re)) s in
                        match err2 with
                        | Some e => (st2, skipped d e)
                        | None =>
                            walkEntries (walkFn env repoPath outputFile) path dirs st2
                        end
                    | None => walkEntries (walkFn env repoPath outputFile) path dirs s
                    end))).
  { intros s Hs. destruct rderr as [re|].
    - rewrite walkFn_on_error. unfold skipped. cbn [error_eqb andb]. discriminate.
    - apply Hloop; [apply incl_refl | exact Hs]. }
  rewrite walkDir_unfold.
  destruct (walkFn_resolves_or_fails env repoPath outputFile path d st)
    as [[rel [np Hres]] | [text Hfail]].
  2:{ destruct (walkFn env repoPath outputFile path (Some d) None st) as [s1 r].
      cbn [snd] in Hfail. subst r. unfold skipped. cbn [error_eqb andb]. discriminate. }
  rewrite (walkFn_resolved _ _ _ Hres), listSelected_unfold.
  rewrite (proj1 Hres).
  destruct (String.eqb rel outputFile).
  - destruct (IsDir d); cbn [negb].
    + now apply Hread.
    + intros _. now apply wrote_nothing.
  - destruct (IsDir d) eqn:Hd.
    + destruct (isHidden (Name d) && negb (String.eqb (Name d) ".github")).
      * unfold skipped. rewrite Hd. intros _. now apply wrote_nothing.
      * cbn [negb]. now apply Hread.
    + destruct (isHidden (Name d)); [intros _; now apply wrote_nothing | ].
      destruct (writeFileContent_renders env st np rel Hu) as [Hs Hu1].
      intros _.
      assert (Hgoal : wrote env repoPath [path] st
                        (fst (writeFileContent env st np rel))).
      { split; [exact Hu1 | ]. exists [itemOf rel (Open env np)]. split.
        - constructor; [now apply itemAt_resolved | constructor].
        - rewrite Hs. cbn [renderAll]. f_equal.
          clear. induction (render _); cbn; congruence. }
      destruct (writeFileContent env st np rel) as [st1 [x|]]; cbn [fst negb] in *;
        [ | exact Hgoal].
      eapply wrote_writer; [ | exact Hgoal]. reflexivity.
Qed.

(** X7: the artifact of a run that succeeds. When the sink takes
    every byte, each file either fails to open or is read to its end,
    and the run exits with code 0, the root exists and the artifact
    is the concatenation, in the order of the walk, of one item for
    each selected entry of the tree and of nothing else: the selected
    entries are the files with a name that is not hidden, outside
    every hidden directory other than [.github], whose relative path
    is not the output name; the item of an entry is its whole block,
    or its begin marker with the line of its open error. *)
Theorem artifact_of_successful_run fl env :
  capacity env = None ->
  (forall p, readToEnd (Open env p)) ->
  exitCode (main fl env) = 0%Z ->
  exists repoPath t items,
    Abs env (filepath.Clean (repo fl)) = Ok repoPath /\
    Lstat env repoPath = Ok t /\
    Forall2 (fun p it => itemAt env repoPath p = Some it)
      (selected repoPath (outputName fl env) repoPath t) items /\
    Forall (fun it => match it with Cut _ _ => False | _ => True end) items /\
    stream (main fl env) = renderAll items.
Proof.
  intros Hcap Hend. rewrite main_unfold. cbn zeta.
  destruct (Abs env (filepath.Clean (repo fl))) as [repoPath | e0]; [ | discriminate].
  destruct (Create env (outputName fl env)) as [e1|]; [discriminate | ].
  unfold WalkDir.
  destruct (Lstat env repoPath) as [t | e] eqn:Hl.
  2:{ rewrite walkFn_on_error. cbn [error_eqb orb snd]. discriminate. }
  pose proof (@walkDir_wrote env repoPath (outputName fl env) t repoPath
                (startState fl env) (conj Hcap eq_refl)) as Hw.
  pose proof (walkDir_error_kind env repoPath (outputName fl env) t repoPath
                (startState fl env)) as Hk.
  destruct (walkDir (walkFn env repoPath (outputName fl env)) repoPath t
              (startState fl env)) as [st1 [e|]].
  { destruct (Hk e eq_refl) as [text ->]. cbn [error_eqb orb snd]. discriminate. }
  cbn [fst snd] in *. destruct (Hw eq_refl) as [_ [items [Hitems Hsent]]].
  intros Hexit. exists repoPath, t, items.
  split; [reflexivity | ]. split; [assumption || reflexivity | ].
  split; [exact Hitems | ].
  split; [ | destruct (Flush (writer st1)); exact Hsent].
  clear -Hitems Hend.
  induction Hitems as [|p it ps its Hp _ IHf]; constructor; [ | exact IHf].
  unfold itemAt in Hp.
  destruct (filepath.Rel repoPath p) as [rel | x]; [ | discriminate].
  destruct (EvalSymlinks env p) as [ev | x]; [ | discriminate].
  destruct (Abs env (filepath.Clean ev)) as [np | x]; [ | discriminate].
  injection Hp as <-. specialize (Hend np). unfold itemOf.
  destruct (Open env np) as [e | c [e|] cerr]; [exact I | exact Hend | exact I].
Qed.

Lemma artifact_of_successful_run_witness :
  selected "/r" "/tmp/out.txt" "/r"
    (dir "r" [dir ".github" [file "token.txt"]; file ".secret"; file "a.txt"])
  = ["/r/.github/token.txt"; "/r/a.txt"] /\
  itemAt scenario "/r" "/r/.github/token.txt" = Some (Whole ".github/token.txt" "y") /\
  itemAt scenario "/r" "/r/a.txt" = Some (Whole "a.txt" "hello") /\
  exists repoPath t items,
    Abs scenario (filepath.Clean (repo (flags "/r" "/tmp/out.txt"))) = Ok repoPath /\
    Lstat scenario repoPath = Ok t /\
    Forall2 (fun p it => itemAt scenario repoPath p = Some it)
      (selected repoPath (outputName (flags "/r" "/tmp/out.txt") scenario) repoPath t)
      items /\
    Forall (fun it => match it with Cut _ _ => False | _ => True end) items /\
    stream (main (flags "/r" "/tmp/out.txt") scenario) = renderAll items.
Proof.
  split; [by_running | ]. split; [by_running | ]. split; [by_running | ].
  apply artifact_of_successful_run; [reflexivity | | by_running].
  intros p. change (Open scenario p) with
    (openIn [("/r/.github/token.txt", "y"); ("/r/.secret", "x"); ("/r/a.txt", "hello")] p).
  unfold openIn. destruct (lookup _ p); exact I.
Defined.

(** * Files that cannot be opened *)

(** X8: files that cannot be opened do not make a run fail. When the
    root path is made absolute, the output file is created, the root
    exists, every directory of the tree can be read, the path steps
    of the callback succeed on every entry, and the sink takes every
    byte, the run exits with code 0 whenever each file either fails
    to open or is read to its end, whether or not it closes without
    an error. *)
Theorem readable_tree_exits_0 fl env repoPath t :
  capacity env = None ->
  Abs env (filepath.Clean (repo fl)) = Ok repoPath ->
  Create env (outputName fl env) = None ->
  Lstat env repoPath = Ok t ->
  readable t = true ->
  (forall p, In p (treePaths repoPath t) ->
             exists rel np, resolves env repoPath p rel np) ->
  forall open,
    (forall p, readToEnd (open p)) ->
    exitCode (main fl (withOpen env open)) = 0%Z.
Proof.
  intros Hcap Habs Hcreate Hl Hread Hres open _.
  rewrite main_unfold. cbn zeta.
  rewrite (@Abs_same_cwd (withOpen env open) env _ eq_refl), Habs.
  change (Create (withOpen env open) (outputName fl (withOpen env open)))
    with (Create env (outputName fl env)).
  rewrite Hcreate.
  change (outputName fl (withOpen env open)) with (outputName fl env).
  change (startState fl (withOpen env open)) with (startState fl env).
  destruct (@WalkDir_holds (withOpen env open) repoPath (outputName fl env) ""
              (startState fl env)) as [entries [[[_ Hu] _] _]].
  { split; [split; [exact Hcap | reflexivity] | ].
    exists []. split; [reflexivity | constructor]. }
  assert (Hnil : snd (WalkDir (walkFn (withOpen env open) repoPath (outputName fl env))
                        (Lstat (withOpen env open)) repoPath (startState fl env))
                 = None).
  { unfold WalkDir. change (Lstat (withOpen env open) repoPath) with (Lstat env repoPath).
    rewrite Hl.
    pose proof (@walkDir_succeeds (withOpen env open) repoPath (outputName fl env) t
                  repoPath (startState fl env) Hread) as H.
    destruct (walkDir (walkFn (withOpen env open) repoPath (outputName fl env))
                repoPath t (startState fl env)) as [st1 r].
    cbn [snd] in H. rewrite H; [reflexivity | ].
    intros p Hp. destruct (Hres p Hp) as [rel [np [Hrel [ev [Hev Hab]]]]].
    exists rel, np. split; [exact Hrel | ]. exists ev. split; [exact Hev | ].
    now rewrite (@Abs_same_cwd (withOpen env open) env _ eq_refl). }
  rewrite Hnil. unfold Flush. rewrite Hu. reflexivity.
Qed.

Lemma readable_tree_exits_0_witness :
  Open vanished "/r/gone.txt" = OpenFail "open /r/gone.txt: no such file or directory" /\
  exitCode (main (flags "/r" "/tmp/out.txt") vanished) = 0%Z /\
  exitCode (main (flags "/r" "/tmp/out.txt") present) = 0%Z.
Proof.
  assert (Hall : forall l p, readToEnd (openIn l p))
    by (intros l p; unfold openIn; destruct (lookup l p); exact I).
  assert (H : forall open, (forall p, readToEnd (open p)) ->
             exitCode (main (flags "/r" "/tmp/out.txt") (withOpen vanished open)) = 0%Z).
  { apply (@readable_tree_exits_0 (flags "/r" "/tmp/out.txt") vanished "/r"
             (dir "r" [file "gone.txt"; file "z.txt"]));
      try reflexivity.
    intros p Hin. vm_compute in Hin.
    destruct Hin as [<- | [<- | [<- | []]]]; do 2 eexists; resolved. }
  split; [reflexivity | ]. split.
  - exact (H (openIn [("/r/z.txt", "hello")]) (Hall _)).
  - exact (H (openIn [("/r/gone.txt", "here"); ("/r/z.txt", "hello")]) (Hall _)).
Defined.
